(** * monitor_deniky: RSS keyword monitor

    A shallow embedding of [monitor_deniky.py] and the properties of its
    seen-article store, keyword matcher, per-source pipeline, alert log
    writer and runner.

    Python values are modelled as follows.
    - [str] is a sequence of Unicode code points: [list N].
    - a [dict] used as a map is a [gmap]; the seen store maps a source
      name to the list of identifiers recorded for it.
    - exceptions are values of [exn]; a function that can raise returns
      [res A], and a function that mutates the seen store returns the
      store as it is after the call, whether or not it raised.
    - the file system, the standard output and the clock are fields of
      [world]. *)

From Stdlib Require Import String Ascii NArith List Permutation Lia.
From Stdlib Require Import DecimalString.
From stdpp Require Import base option list gmap.
Import ListNotations.

Local Open Scope N_scope.
Set Warnings "-register-all".

(** ** Python strings *)

Abbreviation pystr := (list N).

(** Decoding of the UTF-8 bytes of a literal of this file into code
    points, so that the string constants of the program can be written as
    they are in the source. *)
Fixpoint utf8_decode (bs : list N) : pystr :=
  match bs with
  | [] => []
  | b0 :: r0 =>
      if b0 <? 0x80 then b0 :: utf8_decode r0
      else if b0 <? 0xE0 then
        match r0 with
        | b1 :: r1 => ((b0 mod 0x20) * 0x40 + b1 mod 0x40) :: utf8_decode r1
        | _ => []
        end
      else if b0 <? 0xF0 then
        match r0 with
        | b1 :: b2 :: r2 =>
            ((b0 mod 0x10) * 0x1000 + (b1 mod 0x40) * 0x40 + b2 mod 0x40)
              :: utf8_decode r2
        | _ => []
        end
      else
        match r0 with
        | b1 :: b2 :: b3 :: r3 =>
            ((b0 mod 0x08) * 0x40000 + (b1 mod 0x40) * 0x1000
             + (b2 mod 0x40) * 0x40 + b3 mod 0x40) :: utf8_decode r3
        | _ => []
        end
  end.

Definition lit (s : string) : pystr :=
  utf8_decode (List.map N_of_ascii (list_ascii_of_string s)).

(** Truth value of a [str]: empty is false. *)
Definition truthy (s : pystr) : bool :=
  match s with [] => false | _ :: _ => true end.

(** Truth value of [None] or a [str]. *)
Definition truthy_opt (o : option pystr) : bool :=
  match o with None => false | Some s => truthy s end.

(** [a or b] on strings. *)
Definition str_or (a b : pystr) : pystr := if truthy a then a else b.

(** [a or b] where each side is [None] or a [str]. *)
Definition opt_or (a b : option pystr) : option pystr :=
  if truthy_opt a then a else b.

(** [s.startswith(p)]. *)
Fixpoint str_startswith (p s : pystr) : bool :=
  match p, s with
  | [], _ => true
  | _ :: _, [] => false
  | a :: p', b :: s' => (a =? b) && str_startswith p' s'
  end.

(** [sub in s] on strings: [sub] occurs in [s] as a contiguous run. *)
Fixpoint str_contains (sub s : pystr) : bool :=
  str_startswith sub s
  || match s with
     | [] => false
     | _ :: s' => str_contains sub s'
     end.

(** [s.replace(old, new)] for one-character [old] and [new], the only use
    the program makes of it. *)
Definition str_replace (old new : N) (s : pystr) : pystr :=
  List.map (fun c => if c =? old then new else c) s.

(** [str.isspace] of one code point. *)
Definition isspace (c : N) : bool :=
  ((0x09 <=? c) && (c <=? 0x0D)) || ((0x1C <=? c) && (c <=? 0x20))
  || (c =? 0x85) || (c =? 0xA0) || (c =? 0x1680)
  || ((0x2000 <=? c) && (c <=? 0x200A))
  || (c =? 0x2028) || (c =? 0x2029) || (c =? 0x202F) || (c =? 0x205F)
  || (c =? 0x3000).

Fixpoint str_lstrip (s : pystr) : pystr :=
  match s with
  | [] => []
  | c :: s' => if isspace c then str_lstrip s' else s
  end.

Definition str_rstrip (s : pystr) : pystr := rev (str_lstrip (rev s)).

(** [s.strip()]. *)
Definition str_strip (s : pystr) : pystr := str_rstrip (str_lstrip s).

(** [sep.join(l)]. *)
Fixpoint str_join (sep : pystr) (l : list pystr) : pystr :=
  match l with
  | [] => []
  | [s] => s
  | s :: l' => s ++ sep ++ str_join sep l'
  end.

(** [s * n]. *)
Definition str_repeat (s : pystr) (n : nat) : pystr := concat (replicate n s).

(** [str(n)] for a non-negative integer. *)
Definition str_of_nat (n : nat) : pystr :=
  lit (NilEmpty.string_of_uint (Nat.to_uint n)).

(** [s.split(sep)] for a one-character separator: the fields between the
    occurrences of [sep]. *)
Fixpoint str_split (sep : N) (s : pystr) : list pystr :=
  match s with
  | [] => [[]]
  | c :: s' =>
      if c =? sep then [] :: str_split sep s'
      else match str_split sep s' with
           | [] => [[c]]
           | f :: fs => (c :: f) :: fs
           end
  end.

(** Code points the program names. *)
Definition SEMICOLON : N := 0x3B.
Definition COMMA : N := 0x2C.
Definition NEWLINE : N := 0x0A.


(** [str.lower] on the Basic Latin, Latin-1 Supplement and Latin
    Extended-A blocks (code points below U+0180), following the Unicode
    lower-case mapping there; U+0130 maps to two code points. Code points
    from U+0180 on are outside this instance and are left as they are. It
    instantiates the [lower] parameter below on Slovak text. *)
Definition lower_cp (c : N) : pystr :=
  if (0x41 <=? c) && (c <=? 0x5A) then [c + 0x20]
  else if (0xC0 <=? c) && (c <=? 0xDE) && negb (c =? 0xD7) then [c + 0x20]
  else if c =? 0x130 then [0x69; 0x307]
  else if c =? 0x178 then [0xFF]
  else if ((0x100 <=? c) && (c <=? 0x12F)) || ((0x132 <=? c) && (c <=? 0x137))
          || ((0x14A <=? c) && (c <=? 0x177))
       then (if N.even c then [c + 1] else [c])
  else if ((0x139 <=? c) && (c <=? 0x148)) || ((0x179 <=? c) && (c <=? 0x17E))
       then (if N.odd c then [c + 1] else [c])
  else [c].

Definition lower_latin (s : pystr) : pystr := concat (List.map lower_cp s).

(** ** Time *)

(** A [datetime]; the fields are in the ranges of the calendar
    (day and month below 100, year below 10000). *)
Record datetime := {
  dt_year : N; dt_month : N; dt_day : N;
  dt_hour : N; dt_minute : N; dt_second : N
}.

Definition digit (d : N) : N := 0x30 + d mod 10.
Definition pad2 (n : N) : pystr := [digit (n / 10); digit n].
Definition pad4 (n : N) : pystr :=
  [digit (n / 1000); digit (n / 100); digit (n / 10); digit n].

(** [dt.strftime("%d.%m.%Y %H:%M")]. *)
Definition strftime_dmY_HM (dt : datetime) : pystr :=
  pad2 (dt_day dt) ++ lit "." ++ pad2 (dt_month dt) ++ lit "." ++ pad4 (dt_year dt)
  ++ lit " " ++ pad2 (dt_hour dt) ++ lit ":" ++ pad2 (dt_minute dt).

(** [dt.strftime("%d.%m.%Y %H:%M:%S")]. *)
Definition strftime_dmY_HMS (dt : datetime) : pystr :=
  strftime_dmY_HM dt ++ lit ":" ++ pad2 (dt_second dt).

(** ** Exceptions, files, standard output *)

Inductive exn :=
| KeyError (key : pystr)
| OSError (path : pystr)
| ValueError
| TypeError.

Inductive res (A : Type) :=
| Val (a : A)
| Raise (e : exn).
Arguments Val {A} a.
Arguments Raise {A} e.

(** What a path names: a text file with its decoded content, or something
    that exists and cannot be opened as a file (a directory). *)
Inductive node :=
| File (text : pystr)
| Dir.

Record world := {
  files : gmap pystr node;
  stdout : list pystr;   (* one element per [print] call, oldest first *)
  ticks : nat            (* number of [datetime.now()] calls so far *)
}.

(** [print(s)]. *)
Definition print (w : world) (s : pystr) : world :=
  {| files := files w; stdout := stdout w ++ [s]; ticks := ticks w |}.

(** [os.path.exists(path)]. *)
Definition path_exists (w : world) (path : pystr) : bool :=
  match files w !! path with Some _ => true | None => false end.

(** [open(path, "r")] followed by reading the whole file. *)
Definition read_text (w : world) (path : pystr) : res pystr :=
  match files w !! path with
  | Some (File text) => Val text
  | Some Dir => Raise (OSError path)
  | None => Raise (OSError path)
  end.

(** [open(path, "w")], writing [text] and closing. *)
Definition write_text (w : world) (path text : pystr) : res unit * world :=
  match files w !! path with
  | Some Dir => (Raise (OSError path), w)
  | _ => (Val tt, {| files := <[path := File text]> (files w);
                     stdout := stdout w; ticks := ticks w |})
  end.

(** [open(path, "a")], writing [text] and closing. *)
Definition append_text (w : world) (path text : pystr) : res unit * world :=
  match files w !! path with
  | Some Dir => (Raise (OSError path), w)
  | Some (File old) =>
      (Val tt, {| files := <[path := File (old ++ text)]> (files w);
                  stdout := stdout w; ticks := ticks w |})
  | None =>
      (Val tt, {| files := <[path := File text]> (files w);
                  stdout := stdout w; ticks := ticks w |})
  end.

(** ** JSON values *)

Inductive json :=
| JNull
| JBool (b : bool)
| JNum (numeral : pystr)
| JStr (s : pystr)
| JArr (items : list json)
| JObj (members : list (pystr * json)).

(** The empty mapping [{}]. *)
Definition empty_mapping : json := JObj [].

Definition as_str (j : json) : option pystr :=
  match j with JStr s => Some s | _ => None end.

Definition as_str_list (j : json) : option (list pystr) :=
  match j with JArr items => mapM as_str items | _ => None end.

(** A parsed seen file as the seen store: a mapping from source names to
    sequences of identifiers. A later member of an object overrides an
    earlier one with the same key, as in a [dict]. [None] for JSON of any
    other shape. *)
Definition as_seen (j : json) : option (gmap pystr (list pystr)) :=
  match j with
  | JObj members =>
      kvs ← mapM (fun kv : pystr * json => l ← as_str_list kv.2; Some (kv.1, l)) members;
      Some (list_to_map (rev kvs))
  | _ => None
  end.

Definition seen_to_json (seen : gmap pystr (list pystr)) : json :=
  JObj (List.map (fun kv : pystr * list pystr => (kv.1, JArr (List.map JStr kv.2)))
                 (map_to_list seen)).

(** ** Configuration *)

Definition SEEN_FILE : pystr := lit "seen_articles.json".
Definition ALERT_LOG_FILE : pystr := lit "alerts_log.csv".

Definition EMAIL_SUBJECT_PREFIX : pystr := lit "[MONITORING DENNIKY]".

(** The global keywords. The source has no comma between two adjacent
    literals, which Python joins into one string. *)
Definition KEYWORDS : list pystr := [
  lit "ministerstvo vnútra";
  lit "minister vnútra";
  lit "cestovný pas";
  lit "pasy";
  lit "doklady";
  lit "eDoklady";
  lit "krízová situácia";
  lit "mimoriadna situácia";
  lit "bezpečnosť";
  lit "útok";
  lit "atentát";
  lit "šutaj eštok" ++ lit "eštok";
  lit "hamran"
].

(** A source: a [dict] with the keys ["name"], ["rss_url"] and, optionally,
    ["extra_keywords"]. *)
Record source := {
  src_name : pystr;
  src_rss_url : pystr;
  src_extra_keywords : option (list pystr)
}.

Definition SOURCES : list source := [
  {| src_name := lit "DennikN";
     src_rss_url := lit "https://dennikn.sk/feed";
     src_extra_keywords := Some [] |};
  {| src_name := lit "Aktuality";
     src_rss_url := lit "https://www.aktuality.sk/rss/";
     src_extra_keywords := Some [] |};
  {| src_name := lit "Pravda";
     src_rss_url := lit "https://spravy.pravda.sk/domace/rss/xml";
     src_extra_keywords := Some [] |};
  {| src_name := lit "SME";
     src_rss_url := lit "http://rss.sme.sk/rss/rss.asp?sek=spravy";
     src_extra_keywords := Some [] |};
  {| src_name := lit "Plus1Den";
     src_rss_url := lit "https://www1.pluska.sk/rss.xml";
     src_extra_keywords := Some [] |}
].

(** ** Feeds and matches *)

(** What [feedparser.parse] returns, as far as the program reads it: the
    [bozo] flag, the text of [bozo_exception], and the [entries] attribute
    ([None] when it is missing). An entry is a [dict] from field names to
    strings. *)
Record feed := {
  bozo : bool;
  bozo_exception : pystr;
  entries : option (list (gmap pystr pystr))
}.

(** A match: the [dict] built by [fetch_source]. *)
Record match_t := {
  m_source : pystr;
  m_title : pystr;
  m_link : pystr;
  m_summary : pystr;
  m_published : pystr
}.

(** ** The program *)

Section Program.

(** What the program takes from its libraries and its environment:
    [str.lower], [feedparser.parse] (the feed found at a URL),
    [json.load] on the text of a file ([Raise] when the text is not JSON),
    [json.dump] with the options the program passes, and the result of the
    n-th call of [datetime.now()]. *)
Variable lower : pystr -> pystr.
Variable feedparser_parse : pystr -> feed.
Variable json_load : pystr -> res json.
Variable json_dump : json -> pystr.
Variable clock : nat -> datetime.

(** [datetime.now()]. *)
Definition now (w : world) : datetime * world :=
  (clock (ticks w),
   {| files := files w; stdout := stdout w; ticks := S (ticks w) |}).

(** The [try] block of [load_seen]. *)
Definition load_seen_try (path : pystr) (w : world) : res json :=
  match read_text w path with
  | Val text => json_load text
  | Raise e => Raise e
  end.

Definition load_seen (path : pystr) (w : world) : json :=
  if negb (path_exists w path) then empty_mapping
  else
    match load_seen_try path w with
    | Val parsed => parsed
    | Raise _ => empty_mapping
    end.

Definition save_seen (data : gmap pystr (list pystr)) (path : pystr) (w : world)
  : res unit * world :=
  write_text w path (json_dump (seen_to_json data)).

Definition normalize_text (text : pystr) : pystr :=
  if negb (truthy text) then [] else lower text.

(** The [for kw in keywords] loop of [article_matches_keywords]. *)
Fixpoint any_keyword_in (haystack : pystr) (keywords : list pystr) : bool :=
  match keywords with
  | [] => false
  | kw :: rest =>
      if str_contains (normalize_text kw) haystack then true
      else any_keyword_in haystack rest
  end.

Definition article_matches_keywords
  (entry : gmap pystr pystr) (keywords : list pystr) : bool :=
  let title := default [] (entry !! lit "title") in
  let summary := str_or (default [] (entry !! lit "summary"))
                        (default [] (entry !! lit "description")) in
  let haystack := normalize_text (title ++ lit " " ++ summary) in
  any_keyword_in haystack keywords.

(** The lines [format_email_body] adds for one match. *)
Definition email_lines (m : match_t) : list pystr :=
  [lit "Zdroj: " ++ m_source m; lit "Názov: " ++ m_title m]
  ++ (if truthy (m_published m) then [lit "Publikované: " ++ m_published m] else [])
  ++ [lit "Link: " ++ m_link m]
  ++ (if truthy (m_summary m)
      then [[]; lit "Perex / zhrnutie:"; m_summary m] else [])
  ++ [str_repeat (lit "-") 80].

Definition format_email_body (matches : list match_t) (w : world) : pystr * world :=
  let '(t, w) := now w in
  let now_str := strftime_dmY_HMS t in
  let lines :=
    [lit "Monitoring denníkov – nové články s vybranými kľúčovými slovami";
     lit "Čas spustenia: " ++ now_str;
     []]
    ++ concat (List.map email_lines matches) in
  (str_join [NEWLINE] lines, w).

Definition send_email (subject body : pystr) (w : world) : world :=
  let w := print w ([NEWLINE] ++ str_repeat (lit "=") 80) in
  let w := print w (lit "NOTIFIKÁCIA (len log, e-mail sa neposlal)") in
  let w := print w (lit "PREDMET:" ++ lit " " ++ subject) in
  let w := print w (str_repeat (lit "-") 80) in
  let w := print w body in
  print w (str_repeat (lit "=") 80 ++ [NEWLINE]).

(** The line [append_alert_log] builds for one match. *)
Definition alert_line (run_time : pystr) (m : match_t) : pystr :=
  let title := str_replace SEMICOLON COMMA (str_or (m_title m) []) in
  let link := str_replace SEMICOLON COMMA (str_or (m_link m) []) in
  let published := str_replace SEMICOLON COMMA (str_or (m_published m) []) in
  let source := str_replace SEMICOLON COMMA (str_or (m_source m) []) in
  run_time ++ [SEMICOLON] ++ source ++ [SEMICOLON] ++ published ++ [SEMICOLON]
  ++ title ++ [SEMICOLON] ++ link ++ [NEWLINE].

Definition alert_header : pystr :=
  lit "run_time;source;published;title;link" ++ [NEWLINE].

Definition append_alert_log (matches : list match_t) (w : world) : res unit * world :=
  let header := alert_header in
  let file_exists := path_exists w ALERT_LOG_FILE in
  let '(t, w) := now w in
  let run_time := strftime_dmY_HMS t in
  let lines := List.map (alert_line run_time) matches in
  let written :=
    if file_exists then append_text w ALERT_LOG_FILE (concat lines)
    else write_text w ALERT_LOG_FILE (header ++ concat lines) in
  match written with
  | (Raise e, w) => (Raise e, w)
  | (Val _, w) =>
      (Val tt, print w (lit "Zapísaných " ++ str_of_nat (length lines)
                        ++ lit " článkov do " ++ ALERT_LOG_FILE))
  end.

Definition ensure_source_key (seen : gmap pystr (list pystr)) (source_name : pystr)
  : gmap pystr (list pystr) :=
  match seen !! source_name with
  | None => <[source_name := []]> seen
  | Some _ => seen
  end.

(** [link = entry.get("link") or ""]. *)
Definition entry_link (entry : gmap pystr pystr) : pystr :=
  if truthy_opt (entry !! lit "link") then default [] (entry !! lit "link") else [].

(** [uid = link or entry.get("id") or entry.get("title")]. *)
Definition entry_uid (entry : gmap pystr pystr) : option pystr :=
  opt_or (opt_or (Some (entry_link entry)) (entry !! lit "id")) (entry !! lit "title").

(** The match [dict] built for an entry. *)
Definition make_match (name : pystr) (entry : gmap pystr pystr) : match_t :=
  let title := str_strip (default [] (entry !! lit "title")) in
  let summary := str_strip (str_or (default [] (entry !! lit "summary"))
                                   (default [] (entry !! lit "description"))) in
  let published := str_or (default [] (entry !! lit "published"))
                          (default [] (entry !! lit "updated")) in
  {| m_source := name; m_title := title; m_link := entry_link entry;
     m_summary := summary; m_published := published |}.

(** The [for entry in feed.entries] loop of [fetch_source]: [seen] is the
    store and [matches] the list built so far. [seen[name]] raises
    [KeyError] when [name] is not a key. *)
Fixpoint for_entries (name : pystr) (keywords : list pystr)
  (feed_entries : list (gmap pystr pystr))
  (seen : gmap pystr (list pystr)) (matches : list match_t)
  : res (list match_t) * gmap pystr (list pystr) :=
  match feed_entries with
  | [] => (Val matches, seen)
  | entry :: rest =>
      match entry_uid entry with
      | Some ((_ :: _) as uid) =>
          match seen !! name with
          | None => (Raise (KeyError name), seen)
          | Some ids =>
              if bool_decide (uid ∈ ids) then for_entries name keywords rest seen matches
              else
                let seen := <[name := ids ++ [uid]]> seen in
                if article_matches_keywords entry keywords
                then for_entries name keywords rest seen
                       (matches ++ [make_match name entry])
                else for_entries name keywords rest seen matches
          end
      | _ => for_entries name keywords rest seen matches
      end
  end.

Definition fetch_source (src : source) (global_keywords : list pystr)
  (seen : gmap pystr (list pystr)) (w : world)
  : res (list match_t) * gmap pystr (list pystr) * world :=
  let name := src_name src in
  let rss_url := src_rss_url src in
  let extra_keywords := default [] (src_extra_keywords src) in
  let keywords := global_keywords ++ extra_keywords in
  let w := print w (lit "Spracúvam zdroj: " ++ name ++ lit " (" ++ rss_url ++ lit ")") in
  let feed := feedparser_parse rss_url in
  let w :=
    if bozo feed
    then print w (lit "  UPOZORNENIE: Problém pri čítaní RSS (" ++ name ++ lit "): "
                  ++ bozo_exception feed)
    else w in
  match entries feed with
  | Some ((_ :: _) as feed_entries) =>
      match for_entries name keywords feed_entries seen [] with
      | (Val matches, seen) =>
          (Val matches, seen,
           print w (lit "  Nové relevantné články: " ++ str_of_nat (length matches)))
      | (Raise e, seen) => (Raise e, seen, w)
      end
  | _ =>
      (Val [], seen,
       print w (lit "  Žiadne položky v RSS (alebo sa nepodarilo načítať)."))
  end.

(** The [for src in SOURCES] loop of [main]. *)
Fixpoint for_sources (sources : list source) (keywords : list pystr)
  (seen : gmap pystr (list pystr)) (all_matches : list match_t) (w : world)
  : res (list match_t) * gmap pystr (list pystr) * world :=
  match sources with
  | [] => (Val all_matches, seen, w)
  | src :: rest =>
      let seen := ensure_source_key seen (src_name src) in
      match fetch_source src keywords seen w with
      | (Val matches, seen, w) =>
          for_sources rest keywords seen (all_matches ++ matches) w
      | (Raise e, seen, w) => (Raise e, seen, w)
      end
  end.

(** [main] up to the loading of the seen file. *)
Definition main_banner (w : world) : world :=
  let w := print w (str_repeat (lit "=") 80) in
  let w := print w (lit "Spúšťam monitoring denníkov...") in
  let '(t, w) := now w in
  let now_str := strftime_dmY_HMS t in
  print w (lit "Čas spustenia: " ++ now_str).

(** [main] after the seen store has been saved. *)
Definition main_report (all_matches : list match_t) (w : world) : res unit * world :=
  match all_matches with
  | [] => (Val tt, print w (lit "Žiadne nové články s kľúčovými slovami."))
  | _ :: _ =>
      match append_alert_log all_matches w with
      | (Raise e, w) => (Raise e, w)
      | (Val _, w) =>
          let '(t, w) := now w in
          let subject_time := strftime_dmY_HM t in
          let subject := EMAIL_SUBJECT_PREFIX ++ lit " " ++ subject_time ++ lit " – "
                         ++ str_of_nat (length all_matches) ++ lit " článkov" in
          let '(body, w) := format_email_body all_matches w in
          let w := send_email subject body w in
          (Val tt, print w (lit "Hotovo."))
      end
  end.

(** [main], over the configured sources and keywords. The run is followed
    on seen files that hold a mapping from names to lists of strings, the
    shape [save_seen] writes; on parsed content of another shape the
    operations on the store are not followed and the run is given as
    raising [TypeError]. *)
Definition main_with (sources : list source) (keywords : list pystr) (w : world)
  : res unit * world :=
  let w := main_banner w in
  match as_seen (load_seen SEEN_FILE w) with
  | None => (Raise TypeError, w)
  | Some seen =>
      match for_sources sources keywords seen [] w with
      | (Raise e, _, w) => (Raise e, w)
      | (Val all_matches, seen, w) =>
          match save_seen seen SEEN_FILE w with
          | (Raise e, w) => (Raise e, w)
          | (Val _, w) => main_report all_matches w
          end
      end
  end.

Definition main (w : world) : res unit * world := main_with SOURCES KEYWORDS w.

(** ** The pipeline in the words of the specification *)

(** The identifier of an entry: its link, else its feed-provided id, else
    its title, the first of them that is present and not empty. *)
Definition spec_identifier (entry : gmap pystr pystr) : option pystr :=
  match entry !! lit "link", entry !! lit "id", entry !! lit "title" with
  | Some (c :: l), _, _ => Some (c :: l)
  | _, Some (c :: i), _ => Some (c :: i)
  | _, _, Some (c :: t) => Some (c :: t)
  | _, _, _ => None
  end.

(** Steps 1 to 4 of the per-source pipeline on a seen sequence [ids]: the
    sequence after the entries, and the matches emitted, in feed order. *)
Fixpoint spec_pipeline (name : pystr) (keywords : list pystr)
  (feed_entries : list (gmap pystr pystr)) (ids : list pystr)
  : list pystr * list match_t :=
  match feed_entries with
  | [] => (ids, [])
  | entry :: rest =>
      match spec_identifier entry with
      | None => spec_pipeline name keywords rest ids
      | Some uid =>
          if bool_decide (uid ∈ ids) then spec_pipeline name keywords rest ids
          else
            let '(ids', emitted) := spec_pipeline name keywords rest (ids ++ [uid]) in
            if article_matches_keywords entry keywords
            then (ids', make_match name entry :: emitted)
            else (ids', emitted)
      end
  end.

(** [after] keeps every sequence of [before], with every identifier at the
    position it had: each sequence of [before] is a prefix of the sequence
    [after] has under the same name. *)
Definition seen_extends (before after : gmap pystr (list pystr)) : Prop :=
  forall name ids, before !! name = Some ids ->
    exists added, after !! name = Some (ids ++ added).

(** No sequence of the store holds an identifier twice. *)
Definition seen_nodup (seen : gmap pystr (list pystr)) : Prop :=
  forall name ids, seen !! name = Some ids -> NoDup ids.

(** The store holds, under the name of each of the sources, every
    identifier of the entries of its feed. *)
Definition feeds_recorded (sources : list source) (seen : gmap pystr (list pystr))
  : Prop :=
  forall src, src ∈ sources ->
    exists ids, seen !! src_name src = Some ids /\
      forall entry uid,
        entry ∈ default [] (entries (feedparser_parse (src_rss_url src))) ->
        spec_identifier entry = Some uid -> uid ∈ ids.

(** ** Sample data *)

Definition entry_bezpecnost : gmap pystr pystr :=
  <[lit "title" := lit "BEZPEČNOSŤ na hraniciach"]>
  (<[lit "link" := lit "https://example.sk/hranice"]> ∅).

Definition entry_pasy : gmap pystr pystr :=
  <[lit "title" := lit "Nové pasy na ministerstve vnútra"]>
  (<[lit "link" := lit "https://example.sk/pasy"]> ∅).

Definition entry_pocasie : gmap pystr pystr :=
  <[lit "title" := lit "Počasie na víkend"]>
  (<[lit "link" := lit "https://example.sk/pocasie"]> ∅).

(** An entry with no link, id or title. *)
Definition entry_anonymous : gmap pystr pystr :=
  <[lit "summary" := lit "útok"]> ∅.

Definition sample_feed : feed :=
  {| bozo := false; bozo_exception := [];
     entries := Some [entry_pasy; entry_anonymous; entry_pocasie] |}.

Definition sample_parse (url : pystr) : feed := sample_feed.

Definition sample_source : source :=
  {| src_name := lit "Test"; src_rss_url := lit "https://example.sk/rss";
     src_extra_keywords := None |}.

Definition sample_clock (n : nat) : datetime :=
  {| dt_year := 2025; dt_month := 3; dt_day := 9;
     dt_hour := 7; dt_minute := 5; dt_second := N.of_nat n |}.

Definition sample_json_load (text : pystr) : res json :=
  if bool_decide (text = lit "[]") then Val (JArr [])
  else if bool_decide (text = lit "{}") then Val (JObj [])
  else Raise ValueError.

Definition sample_json_dump (j : json) : pystr := lit "{}".

Definition empty_world : world := {| files := ∅; stdout := []; ticks := 0 |}.

Definition world_with (path : pystr) (n : node) : world :=
  {| files := {[path := n]}; stdout := []; ticks := 0 |}.

Definition sample_seen : gmap pystr (list pystr) := {[ lit "Test" := [] ]}.

Definition sample_seen_old : gmap pystr (list pystr) :=
  {[ lit "Test" := [lit "https://example.sk/old"] ]}.

(** A feed whose only entry has no identifier. *)
Definition anonymous_parse (url : pystr) : feed :=
  {| bozo := false; bozo_exception := []; entries := Some [entry_anonymous] |}.

Definition sample_match : match_t :=
  {| m_source := lit "Test"; m_title := lit "a;b"; m_link := lit "https://example.sk/?x=1;y=2";
     m_summary := []; m_published := lit "Sun, 09 Mar 2025" |}.

(** ** Strings *)

Lemma str_startswith_spec (p s : pystr) :
  str_startswith p s = true <-> exists post, s = p ++ post.
Proof.
  revert s. induction p as [|a p IH]; intros s; simpl.
  - split; [intros _; by exists s | done].
  - destruct s as [|b s].
    + split; [done | intros [post Hpost]; discriminate].
    + rewrite andb_true_iff, N.eqb_eq, IH. split.
      * intros [-> [post ->]]. by exists post.
      * intros [post Hpost]. injection Hpost as -> ->. eauto.
Qed.

(** [str_contains] is the substring test: [sub] occurs in [s] between some
    [pre] and some [post]. *)
Lemma str_contains_spec (sub s : pystr) :
  str_contains sub s = true <-> exists pre post, s = pre ++ sub ++ post.
Proof.
  induction s as [|c s IH]; simpl; rewrite orb_true_iff, str_startswith_spec.
  - split.
    + intros [[post Hpost] | ?]; [|done]. by exists [], post.
    + intros (pre & post & Heq). left. symmetry in Heq.
      apply app_eq_nil in Heq as [-> Heq]. apply app_eq_nil in Heq as [-> ->].
      by exists [].
  - rewrite IH. split.
    + intros [[post Hpost] | (pre & post & ->)].
      * by exists [], post.
      * by exists (c :: pre), post.
    + intros (pre & post & Heq). destruct pre as [|c' pre]; simpl in Heq.
      * left. by exists post.
      * right. injection Heq as -> ->. by exists pre, post.
Qed.

Lemma str_or_match (a b : pystr) :
  str_or a b = match a with _ :: _ => a | [] => b end.
Proof. by destruct a. Qed.

(** ** The matcher *)

Lemma any_keyword_in_spec (haystack : pystr) (keywords : list pystr) :
  any_keyword_in haystack keywords = true <->
  exists kw, kw ∈ keywords /\ str_contains (normalize_text kw) haystack = true.
Proof.
  induction keywords as [|k ks IH]; simpl.
  - split; [done | intros (kw & Hin & _); by apply elem_of_nil in Hin].
  - destruct (str_contains (normalize_text k) haystack) eqn:Hk.
    + split; [intros _ | done]. exists k. split; [left | done].
    + rewrite IH. split.
      * intros (kw & Hin & Hkw). exists kw. split; [by right | done].
      * intros (kw & Hin & Hkw). apply elem_of_cons in Hin as [-> | Hin].
        -- congruence.
        -- by exists kw.
Qed.

Lemma normalize_text_lower (text : pystr) :
  lower [] = [] -> normalize_text text = lower text.
Proof. intros Hnil. unfold normalize_text. by destruct text. Qed.

(** C3. [article_matches_keywords] returns true exactly when some keyword
    of the list, lower-cased, occurs as a substring of the lower-cased
    haystack [title + " " + summary], where the summary is the ["summary"]
    field and, when that field is absent (or empty, which Python's [or]
    treats alike), the ["description"] field. [lower [] = []] is the fact
    that the lower-casing of the empty string is empty. *)
Theorem article_matches_keywords_iff
  (entry : gmap pystr pystr) (keywords : list pystr) :
  lower [] = [] ->
  article_matches_keywords entry keywords = true <->
  exists kw pre post,
    kw ∈ keywords /\
    let title := default [] (entry !! lit "title") in
    let summary :=
      match entry !! lit "summary" with
      | Some (c :: s) => c :: s
      | _ => default [] (entry !! lit "description")
      end in
    lower (title ++ lit " " ++ summary) = pre ++ lower kw ++ post.
Proof.
  intros Hnil. unfold article_matches_keywords.
  rewrite any_keyword_in_spec, str_or_match.
  assert (Hsum :
    match default [] (entry !! lit "summary") with
    | _ :: _ => default [] (entry !! lit "summary")
    | [] => default [] (entry !! lit "description")
    end =
    match entry !! lit "summary" with
    | Some (c :: s) => c :: s
    | _ => default [] (entry !! lit "description")
    end).
  { by destruct (entry !! lit "summary") as [[|c s]|]. }
  rewrite Hsum. cbv zeta.
  split.
  - intros (kw & Hin & Hkw).
    rewrite !normalize_text_lower in Hkw by done.
    apply str_contains_spec in Hkw as (pre & post & Heq).
    by exists kw, pre, post.
  - intros (kw & pre & post & Hin & Heq).
    exists kw. split; [done |].
    rewrite !normalize_text_lower by done.
    apply str_contains_spec. by exists pre, post.
Qed.

Lemma any_keyword_in_perm (haystack : pystr) (keywords keywords' : list pystr) :
  Permutation keywords keywords' ->
  any_keyword_in haystack keywords = any_keyword_in haystack keywords'.
Proof.
  intros Hperm. apply eq_true_iff_eq. rewrite !any_keyword_in_spec.
  split; intros (kw & Hin & Hkw); exists kw; split; try done.
  - by rewrite <- Hperm.
  - by rewrite Hperm.
Qed.

(** The order in which the global and the extra keywords are concatenated
    does not matter. *)
Lemma article_matches_keywords_concat_order
  (entry : gmap pystr pystr) (global_keywords extra_keywords : list pystr) :
  article_matches_keywords entry (global_keywords ++ extra_keywords)
  = article_matches_keywords entry (extra_keywords ++ global_keywords).
Proof. apply any_keyword_in_perm, Permutation_app_comm. Qed.

(** C8. Permuting the keyword list does not change the result of
    [article_matches_keywords] on any entry, and so does not change which
    entries of a feed match. *)
Theorem article_matches_keywords_perm (keywords keywords' : list pystr) :
  Permutation keywords keywords' ->
  (forall entry : gmap pystr pystr,
     article_matches_keywords entry keywords
     = article_matches_keywords entry keywords') /\
  (forall feed_entries : list (gmap pystr pystr),
     List.filter (fun entry => article_matches_keywords entry keywords) feed_entries
     = List.filter (fun entry => article_matches_keywords entry keywords') feed_entries).
Proof.
  intros Hperm.
  assert (Hentry : forall entry : gmap pystr pystr,
             article_matches_keywords entry keywords
             = article_matches_keywords entry keywords').
  { intros entry. by apply any_keyword_in_perm. }
  split; [done |].
  induction feed_entries as [|entry rest IH]; [done |]. simpl.
  by rewrite IH, Hentry.
Qed.

(** ** The alert log writer *)

Lemma str_replace_lookup (old new : N) (s : pystr) (i : nat) (c : N) :
  s !! i = Some c ->
  str_replace old new s !! i = Some (if c =? old then new else c).
Proof.
  revert i. induction s as [|d s IH]; intros [|i] Hi; simpl in *; try done.
  - by injection Hi as ->.
  - by apply IH.
Qed.

Lemma str_replace_length (old new : N) (s : pystr) :
  length (str_replace old new s) = length s.
Proof. apply length_map. Qed.

Lemma str_replace_not_in (old new : N) (s : pystr) :
  old <> new -> old ∉ str_replace old new s.
Proof.
  intros Hne. induction s as [|c s IH]; simpl.
  - apply not_elem_of_nil.
  - apply not_elem_of_cons. split; [|done].
    destruct (N.eqb_spec c old); congruence.
Qed.

Lemma str_split_no_sep (sep : N) (s : pystr) :
  sep ∉ s -> str_split sep s = [s].
Proof.
  induction s as [|c s IH]; [done |].
  intros [Hc Hs]%not_elem_of_cons. simpl.
  destruct (N.eqb_spec c sep); [congruence |]. by rewrite IH.
Qed.

Lemma str_split_app_sep (sep : N) (a b : pystr) :
  sep ∉ a -> str_split sep (a ++ [sep] ++ b) = a :: str_split sep b.
Proof.
  induction a as [|c a IH]; simpl.
  - intros _. by rewrite N.eqb_refl.
  - intros [Hc Ha]%not_elem_of_cons.
    destruct (N.eqb_spec c sep); [congruence |].
    specialize (IH Ha). simpl in IH. by rewrite IH.
Qed.

Lemma digit_not_semicolon (d : N) : SEMICOLON <> digit d.
Proof.
  unfold SEMICOLON, digit. pose proof (N.mod_lt d 10). lia.
Qed.

Lemma strftime_no_semicolon (dt : datetime) :
  SEMICOLON ∉ strftime_dmY_HMS dt.
Proof.
  unfold strftime_dmY_HMS, strftime_dmY_HM, pad2, pad4.
  rewrite !not_elem_of_app, !not_elem_of_cons.
  pose proof digit_not_semicolon.
  repeat split; try done; try apply not_elem_of_nil;
    by apply (bool_decide_unpack _); vm_compute.
Qed.

Lemma alert_line_split (dt : datetime) (m : match_t) :
  str_split SEMICOLON (alert_line (strftime_dmY_HMS dt) m)
  = [strftime_dmY_HMS dt;
     str_replace SEMICOLON COMMA (m_source m);
     str_replace SEMICOLON COMMA (m_published m);
     str_replace SEMICOLON COMMA (m_title m);
     str_replace SEMICOLON COMMA (m_link m) ++ [NEWLINE]].
Proof.
  set (escaped := str_replace SEMICOLON COMMA).
  assert (Hesc : forall s, SEMICOLON ∉ escaped s).
  { intros s. by apply str_replace_not_in. }
  unfold alert_line. rewrite !str_or_match.
  assert (Hid : forall s : pystr, match s with _ :: _ => s | [] => [] end = s)
    by (by intros []).
  rewrite !Hid. fold escaped.
  rewrite (str_split_app_sep _ (strftime_dmY_HMS dt)) by apply strftime_no_semicolon.
  rewrite (str_split_app_sep _ (escaped (m_source m))) by apply Hesc.
  rewrite (str_split_app_sep _ (escaped (m_published m))) by apply Hesc.
  rewrite (str_split_app_sep _ (escaped (m_title m))) by apply Hesc.
  rewrite str_split_no_sep; [done |].
  rewrite not_elem_of_app. split; [apply Hesc |].
  by apply (bool_decide_unpack _); vm_compute.
Qed.

(** C4. In the line written for a match, every [;] of the source,
    published, title and link fields is replaced by [,] (position by
    position, nothing else changes), and the line splits at [;] into
    exactly five columns: the run time and the four fields. *)
Theorem alert_line_five_columns (dt : datetime) (m : match_t) :
  let escaped := str_replace SEMICOLON COMMA in
  let line := alert_line (strftime_dmY_HMS dt) m in
  (forall field, field ∈ [m_title m; m_link m; m_published m; m_source m] ->
     (SEMICOLON ∉ escaped field) /\
     length (escaped field) = length field /\
     (forall i c, field !! i = Some c ->
        escaped field !! i = Some (if c =? SEMICOLON then COMMA else c))) /\
  str_split SEMICOLON line
  = [strftime_dmY_HMS dt; escaped (m_source m); escaped (m_published m);
     escaped (m_title m); escaped (m_link m) ++ [NEWLINE]] /\
  length (str_split SEMICOLON line) = 5%nat.
Proof.
  intros escaped line. split.
  { intros field _. split; [by apply str_replace_not_in |]. split.
    - apply str_replace_length.
    - intros i c. apply str_replace_lookup. }
  unfold line. rewrite alert_line_split. by split.
Qed.



(** ** The seen store *)

(** C6. [load_seen] returns the empty mapping when nothing exists at the
    path, when the file exists and its text is not JSON, and when what
    exists cannot be read; no exception leaves it. In the remaining case,
    a readable file whose text parses, it returns the parsed content. *)
Theorem load_seen_cases (path : pystr) (w : world) :
  (files w !! path = None -> load_seen path w = empty_mapping) /\
  (forall text e,
     files w !! path = Some (File text) -> json_load text = Raise e ->
     load_seen path w = empty_mapping) /\
  (files w !! path = Some Dir -> load_seen path w = empty_mapping) /\
  (forall text parsed,
     files w !! path = Some (File text) -> json_load text = Val parsed ->
     load_seen path w = parsed).
Proof.
  unfold load_seen, load_seen_try, path_exists, read_text.
  repeat split.
  - by intros ->.
  - by intros text e -> ->.
  - by intros ->.
  - by intros text parsed -> ->.
Qed.

Lemma seen_extends_refl (seen : gmap pystr (list pystr)) : seen_extends seen seen.
Proof. intros name ids Hids. exists []. by rewrite app_nil_r. Qed.

Lemma seen_extends_trans (s1 s2 s3 : gmap pystr (list pystr)) :
  seen_extends s1 s2 -> seen_extends s2 s3 -> seen_extends s1 s3.
Proof.
  intros H12 H23 name ids Hids.
  destruct (H12 _ _ Hids) as [a1 H2]. destruct (H23 _ _ H2) as [a2 H3].
  exists (a1 ++ a2). by rewrite app_assoc.
Qed.

Lemma seen_extends_append (seen : gmap pystr (list pystr)) (name : pystr)
  (ids : list pystr) (uid : pystr) :
  seen !! name = Some ids -> seen_extends seen (<[name := ids ++ [uid]]> seen).
Proof.
  intros Hname other ids' Hother. destruct (decide (name = other)) as [<- | Hne].
  - exists [uid]. rewrite lookup_insert_eq. congruence.
  - exists []. by rewrite lookup_insert_ne, app_nil_r.
Qed.

(** An identifier keeps its position. *)
Lemma seen_extends_lookup (before after : gmap pystr (list pystr))
  (name : pystr) (ids : list pystr) (i : nat) (uid : pystr) :
  seen_extends before after ->
  before !! name = Some ids -> ids !! i = Some uid ->
  exists ids', after !! name = Some ids' /\ ids' !! i = Some uid.
Proof.
  intros Hext Hname Hi. destruct (Hext _ _ Hname) as [added Hafter].
  exists (ids ++ added). split; [done |]. by apply lookup_app_l_Some.
Qed.

Lemma ensure_source_key_extends (seen : gmap pystr (list pystr)) (name : pystr) :
  seen_extends seen (ensure_source_key seen name).
Proof.
  unfold ensure_source_key. destruct (seen !! name) eqn:Hname.
  - apply seen_extends_refl.
  - intros other ids Hother. exists []. rewrite app_nil_r.
    rewrite lookup_insert_ne; [done | congruence].
Qed.

Lemma ensure_source_key_lookup (seen : gmap pystr (list pystr)) (name : pystr) :
  ensure_source_key seen name !! name = Some (default [] (seen !! name)).
Proof.
  unfold ensure_source_key. destruct (seen !! name) eqn:Hname; simpl.
  - done.
  - apply lookup_insert_eq.
Qed.

Lemma ensure_source_key_present (seen : gmap pystr (list pystr)) (name : pystr) :
  is_Some (seen !! name) -> ensure_source_key seen name = seen.
Proof. intros [ids Hids]. unfold ensure_source_key. by rewrite Hids. Qed.

Lemma for_entries_extends (name : pystr) (keywords : list pystr)
  (feed_entries : list (gmap pystr pystr))
  (seen : gmap pystr (list pystr)) (matches : list match_t) :
  seen_extends seen (for_entries name keywords feed_entries seen matches).2.
Proof.
  revert seen matches.
  induction feed_entries as [|entry rest IH]; intros seen matches; simpl.
  - apply seen_extends_refl.
  - destruct (entry_uid entry) as [[|c u]|]; try apply IH.
    destruct (seen !! name) as [ids|] eqn:Hname; simpl.
    + case_bool_decide; [apply IH |].
      eapply seen_extends_trans; [by apply seen_extends_append |].
      destruct (article_matches_keywords entry keywords); apply IH.
    + apply seen_extends_refl.
Qed.

Lemma fetch_source_extends (src : source) (global_keywords : list pystr)
  (seen : gmap pystr (list pystr)) (w : world) :
  seen_extends seen (fetch_source src global_keywords seen w).1.2.
Proof.
  unfold fetch_source.
  destruct (entries (feedparser_parse (src_rss_url src))) as [[|entry rest]|];
    lazy beta iota zeta; try apply seen_extends_refl.
  match goal with
  | |- context [for_entries ?n ?k ?es ?s ?m] =>
      pose proof (for_entries_extends n k es s m) as Hext;
      destruct (for_entries n k es s m) as [[ms|e] seen']
  end; done.
Qed.

Lemma for_sources_extends (sources : list source) (keywords : list pystr)
  (seen : gmap pystr (list pystr)) (all_matches : list match_t) (w : world) :
  seen_extends seen (for_sources sources keywords seen all_matches w).1.2.
Proof.
  revert seen all_matches w.
  induction sources as [|src rest IH]; intros seen all_matches w; simpl.
  - apply seen_extends_refl.
  - pose proof (fetch_source_extends src keywords
                  (ensure_source_key seen (src_name src)) w) as Hfetch.
    destruct (fetch_source src keywords (ensure_source_key seen (src_name src)) w)
      as [[[ms|e] seen'] w']; simpl in *.
    + eapply seen_extends_trans; [apply ensure_source_key_extends |].
      eapply seen_extends_trans; [apply Hfetch | apply IH].
    + eapply seen_extends_trans; [apply ensure_source_key_extends | apply Hfetch].
Qed.

(** C7. The seen sequences only grow: after [ensure_source_key], after
    [fetch_source] (whether it returns or raises) and after the runner's
    loop over the sources, every sequence of the store is still there
    under its name, as a prefix of what the store now holds, so that every
    identifier recorded before is present at its original position. *)
Theorem seen_only_grows (seen : gmap pystr (list pystr)) :
  (forall name, seen_extends seen (ensure_source_key seen name)) /\
  (forall src keywords w,
     seen_extends seen (fetch_source src keywords seen w).1.2) /\
  (forall sources keywords all_matches w,
     seen_extends seen (for_sources sources keywords seen all_matches w).1.2) /\
  (forall after name ids i uid,
     seen_extends seen after ->
     seen !! name = Some ids -> ids !! i = Some uid ->
     exists ids', after !! name = Some ids' /\ ids' !! i = Some uid).
Proof.
  split; [intros; apply ensure_source_key_extends |].
  split; [intros; apply fetch_source_extends |].
  split; [intros; apply for_sources_extends |].
  intros after name ids i uid. apply seen_extends_lookup.
Qed.

(** ** The per-source pipeline *)

(** The identifier [fetch_source] computes, when it is not empty, is the
    identifier of the specification; otherwise there is none. *)
Lemma entry_uid_spec (entry : gmap pystr pystr) :
  match entry_uid entry with
  | Some (c :: u) => Some (c :: u)
  | _ => None
  end = spec_identifier entry.
Proof.
  unfold entry_uid, entry_link, opt_or, spec_identifier, truthy_opt, truthy.
  destruct (entry !! lit "link") as [[|c l]|];
    destruct (entry !! lit "id") as [[|c' i]|];
    destruct (entry !! lit "title") as [[|c'' t]|]; done.
Qed.

Lemma for_entries_refines (name : pystr) (keywords : list pystr)
  (feed_entries : list (gmap pystr pystr))
  (seen : gmap pystr (list pystr)) (matches : list match_t) (ids : list pystr) :
  seen !! name = Some ids ->
  for_entries name keywords feed_entries seen matches
  = (Val (matches ++ (spec_pipeline name keywords feed_entries ids).2),
     <[name := (spec_pipeline name keywords feed_entries ids).1]> seen).
Proof.
  revert seen matches ids.
  induction feed_entries as [|entry rest IH]; intros seen matches ids Hname; simpl.
  - by rewrite app_nil_r, insert_id.
  - pose proof (entry_uid_spec entry) as Huid.
    destruct (entry_uid entry) as [[|c u]|]; rewrite <- Huid; try by apply IH.
    rewrite Hname. case_bool_decide; [by apply IH |].
    destruct (spec_pipeline name keywords rest (ids ++ [c :: u]))
      as [ids' emitted] eqn:Hrest.
    destruct (article_matches_keywords entry keywords).
    + rewrite (IH _ _ (ids ++ [c :: u])) by apply lookup_insert_eq.
      rewrite Hrest, insert_insert_eq. simpl. by rewrite <- app_assoc.
    + rewrite (IH _ _ (ids ++ [c :: u])) by apply lookup_insert_eq.
      by rewrite Hrest, insert_insert_eq.
Qed.

Lemma fetch_source_refines (src : source) (global_keywords : list pystr)
  (seen : gmap pystr (list pystr)) (w : world) (ids : list pystr) :
  seen !! src_name src = Some ids ->
  let feed_entries := default [] (entries (feedparser_parse (src_rss_url src))) in
  let keywords := global_keywords ++ default [] (src_extra_keywords src) in
  let p := spec_pipeline (src_name src) keywords feed_entries ids in
  (fetch_source src global_keywords seen w).1
  = (Val p.2, <[src_name src := p.1]> seen).
Proof.
  intros Hname. unfold fetch_source.
  destruct (entries (feedparser_parse (src_rss_url src))) as [[|entry rest]|];
    lazy beta iota zeta.
  - simpl. by rewrite insert_id.
  - rewrite (for_entries_refines _ _ _ _ _ ids Hname). done.
  - simpl. by rewrite insert_id.
Qed.

(** C1. [fetch_source] runs the pipeline of the specification on the
    entries of the feed, in feed order: the identifier is the link, else
    the id, else the title; an entry without one is skipped and changes
    nothing; an entry whose identifier is already in the seen sequence of
    the source is skipped and emits nothing; any other identifier is
    appended to that sequence, whatever the keyword test says, and the
    entry emits a match exactly when the test succeeds. *)
Theorem fetch_source_pipeline (src : source) (global_keywords : list pystr)
  (seen : gmap pystr (list pystr)) (w : world) (ids : list pystr) :
  seen !! src_name src = Some ids ->
  let name := src_name src in
  let keywords := global_keywords ++ default [] (src_extra_keywords src) in
  let feed_entries := default [] (entries (feedparser_parse (src_rss_url src))) in
  (fetch_source src global_keywords seen w).1
  = (Val (spec_pipeline name keywords feed_entries ids).2,
     <[name := (spec_pipeline name keywords feed_entries ids).1]> seen) /\
  (forall entry rest,
     spec_identifier entry = None ->
     spec_pipeline name keywords (entry :: rest) ids
     = spec_pipeline name keywords rest ids) /\
  (forall entry rest uid,
     spec_identifier entry = Some uid -> uid ∈ ids ->
     spec_pipeline name keywords (entry :: rest) ids
     = spec_pipeline name keywords rest ids) /\
  (forall entry rest uid,
     spec_identifier entry = Some uid -> uid ∉ ids ->
     let after := spec_pipeline name keywords rest (ids ++ [uid]) in
     spec_pipeline name keywords (entry :: rest) ids
     = (after.1,
        if article_matches_keywords entry keywords
        then make_match name entry :: after.2 else after.2)).
Proof.
  intros Hname name keywords feed_entries.
  split; [by apply fetch_source_refines |].
  split; [| split].
  - intros entry rest Hid. simpl. by rewrite Hid.
  - intros entry rest uid Hid Hin. simpl. rewrite Hid.
    by rewrite bool_decide_eq_true_2.
  - intros entry rest uid Hid Hnotin after. simpl. rewrite Hid.
    rewrite bool_decide_eq_false_2 by done. fold after.
    destruct after as [ids' emitted].
    by destruct (article_matches_keywords entry keywords).
Qed.

(** Every identifier of the feed is in the sequence the pipeline ends
    with, and so is every identifier it started with. *)
Lemma spec_pipeline_records (name : pystr) (keywords : list pystr)
  (feed_entries : list (gmap pystr pystr)) (ids : list pystr) :
  (forall uid, uid ∈ ids -> uid ∈ (spec_pipeline name keywords feed_entries ids).1) /\
  (forall entry uid, entry ∈ feed_entries -> spec_identifier entry = Some uid ->
     uid ∈ (spec_pipeline name keywords feed_entries ids).1).
Proof.
  revert ids. induction feed_entries as [|entry rest IH]; intros ids; simpl.
  - split; [done |]. intros entry uid Hin. by apply elem_of_nil in Hin.
  - assert (Hskip : (forall uid, spec_identifier entry = Some uid -> uid ∈ ids) ->
      (forall uid, uid ∈ ids -> uid ∈ (spec_pipeline name keywords rest ids).1) /\
      (forall e uid, e ∈ entry :: rest -> spec_identifier e = Some uid ->
         uid ∈ (spec_pipeline name keywords rest ids).1)).
    { intros Hhere. destruct (IH ids) as [IH1 IH2]. split; [done |].
      intros e uid [-> | Hin]%elem_of_cons He; [apply IH1; eauto | eauto]. }
    destruct (spec_identifier entry) as [uid0|] eqn:Hid; [| by apply Hskip].
    case_bool_decide as Hseen; [apply Hskip; by intros ? [= <-] |].
    destruct (IH (ids ++ [uid0])) as [IH1 IH2].
    destruct (spec_pipeline name keywords rest (ids ++ [uid0]))
      as [ids' emitted] eqn:Hrest.
    assert (Hboth :
      (forall uid, uid ∈ ids -> uid ∈ ids') /\
      (forall e uid, e ∈ entry :: rest -> spec_identifier e = Some uid -> uid ∈ ids')).
    { split.
      - intros uid Hin. apply IH1, elem_of_app. by left.
      - intros e uid [-> | Hin]%elem_of_cons He; [| eauto].
        apply IH1, elem_of_app. right. rewrite Hid in He. injection He as <-.
        apply list_elem_of_singleton. done. }
    by destruct (article_matches_keywords entry keywords).
Qed.

(** On a sequence that already holds every identifier of the feed, the
    pipeline changes nothing and emits nothing. *)
Lemma spec_pipeline_all_seen (name : pystr) (keywords : list pystr)
  (feed_entries : list (gmap pystr pystr)) (ids : list pystr) :
  (forall entry uid, entry ∈ feed_entries -> spec_identifier entry = Some uid ->
     uid ∈ ids) ->
  spec_pipeline name keywords feed_entries ids = (ids, []).
Proof.
  induction feed_entries as [|entry rest IH]; intros Hall; simpl; [done |].
  assert (Hrest : spec_pipeline name keywords rest ids = (ids, [])).
  { apply IH. intros e uid Hin. apply Hall. by right. }
  destruct (spec_identifier entry) as [uid|] eqn:Hid; [| done].
  rewrite bool_decide_eq_true_2; [done |]. apply (Hall entry); [by left | done].
Qed.


(** ** The key of the source in the seen store *)

Lemma for_entries_missing_key (name : pystr) (keywords : list pystr)
  (feed_entries : list (gmap pystr pystr))
  (seen : gmap pystr (list pystr)) (matches : list match_t) :
  seen !! name = None ->
  (exists entry uid, entry ∈ feed_entries /\ spec_identifier entry = Some uid) ->
  for_entries name keywords feed_entries seen matches = (Raise (KeyError name), seen).
Proof.
  intros Hname. induction feed_entries as [|entry rest IH]; simpl.
  - intros (e & uid & Hin & _). by apply elem_of_nil in Hin.
  - intros (e & uid & Hin & Hid).
    pose proof (entry_uid_spec entry) as Huid.
    destruct (entry_uid entry) as [[|c u]|]; try by rewrite Hname.
    + apply IH. exists e, uid. split; [| done].
      apply elem_of_cons in Hin as [-> | Hin]; [congruence | done].
    + apply IH. exists e, uid. split; [| done].
      apply elem_of_cons in Hin as [-> | Hin]; [congruence | done].
Qed.

Lemma fetch_source_returns (src : source) (global_keywords : list pystr)
  (seen : gmap pystr (list pystr)) (w : world) :
  is_Some (seen !! src_name src) ->
  exists matches, (fetch_source src global_keywords seen w).1.1 = Val matches.
Proof.
  intros [ids Hids].
  rewrite (fetch_source_refines src global_keywords seen w ids Hids). simpl. eauto.
Qed.

Lemma for_sources_returns (sources : list source) (keywords : list pystr)
  (seen : gmap pystr (list pystr)) (all_matches : list match_t) (w : world) :
  exists matches, (for_sources sources keywords seen all_matches w).1.1 = Val matches.
Proof.
  revert seen all_matches w.
  induction sources as [|src rest IH]; intros seen all_matches w; simpl; [eauto |].
  destruct (fetch_source_returns src keywords
              (ensure_source_key seen (src_name src)) w) as [ms Hms].
  { rewrite ensure_source_key_lookup. eauto. }
  destruct (fetch_source src keywords (ensure_source_key seen (src_name src)) w)
    as [[r seen'] w']; simpl in Hms; subst r. apply IH.
Qed.

(** C10. [fetch_source] needs the name of the source to be a key of the
    seen mapping: with the key present it returns its matches and raises
    nothing; after [ensure_source_key] on that name the key is present,
    so the call the runner makes returns, and so does the runner's whole
    loop, from any mapping. Without the key, a feed with an entry that has
    an identifier makes the lookup raise [KeyError]. *)
Theorem fetch_source_key_precondition (src : source) (keywords : list pystr)
  (seen : gmap pystr (list pystr)) (w : world) :
  (is_Some (seen !! src_name src) ->
   exists matches, (fetch_source src keywords seen w).1.1 = Val matches) /\
  (is_Some (ensure_source_key seen (src_name src) !! src_name src) /\
   exists matches,
     (fetch_source src keywords (ensure_source_key seen (src_name src)) w).1.1
     = Val matches) /\
  (forall sources all_matches,
     exists matches, (for_sources sources keywords seen all_matches w).1.1 = Val matches) /\
  (seen !! src_name src = None ->
   forall feed_entries,
     entries (feedparser_parse (src_rss_url src)) = Some feed_entries ->
     (exists entry uid, entry ∈ feed_entries /\ spec_identifier entry = Some uid) ->
     (fetch_source src keywords seen w).1 = (Raise (KeyError (src_name src)), seen)).
Proof.
  split; [apply fetch_source_returns |].
  assert (Hkey : is_Some (ensure_source_key seen (src_name src) !! src_name src)).
  { rewrite ensure_source_key_lookup. eauto. }
  split; [split; [done | by apply fetch_source_returns] |].
  split; [intros; apply for_sources_returns |].
  intros Hname feed_entries Hfeed Hsome. unfold fetch_source. rewrite Hfeed.
  destruct feed_entries as [|entry rest].
  { destruct Hsome as (e & uid & Hin & _). by apply elem_of_nil in Hin. }
  lazy beta iota zeta.
  by rewrite for_entries_missing_key.
Qed.

(** ** The runner *)

Lemma fetch_source_world (src : source) (global_keywords : list pystr)
  (seen : gmap pystr (list pystr)) (w : world) :
  files (fetch_source src global_keywords seen w).2 = files w /\
  ticks (fetch_source src global_keywords seen w).2 = ticks w.
Proof.
  unfold fetch_source.
  destruct (bozo (feedparser_parse (src_rss_url src)));
    destruct (entries (feedparser_parse (src_rss_url src))) as [[|entry rest]|];
    lazy beta iota zeta; try done;
    match goal with
    | |- context [for_entries ?n ?k ?es ?s ?m] =>
        destruct (for_entries n k es s m) as [[ms|e] seen']
    end; done.
Qed.

Lemma for_sources_world (sources : list source) (keywords : list pystr)
  (seen : gmap pystr (list pystr)) (all_matches : list match_t) (w : world) :
  files (for_sources sources keywords seen all_matches w).2 = files w /\
  ticks (for_sources sources keywords seen all_matches w).2 = ticks w.
Proof.
  revert seen all_matches w.
  induction sources as [|src rest IH]; intros seen all_matches w; simpl; [done |].
  pose proof (fetch_source_world src keywords
                (ensure_source_key seen (src_name src)) w) as [Hf Ht].
  destruct (fetch_source src keywords (ensure_source_key seen (src_name src)) w)
    as [[[ms|e] seen'] w']; simpl in *.
  - destruct (IH seen' (all_matches ++ ms) w') as [IHf IHt]. split; congruence.
  - done.
Qed.

Lemma seen_file_is_not_alert_log : SEEN_FILE <> ALERT_LOG_FILE.
Proof. by apply (bool_decide_unpack _); vm_compute. Qed.

Lemma save_seen_world (data : gmap pystr (list pystr)) (w : world) :
  files (save_seen data SEEN_FILE w).2 !! ALERT_LOG_FILE = files w !! ALERT_LOG_FILE /\
  ticks (save_seen data SEEN_FILE w).2 = ticks w /\
  stdout (save_seen data SEEN_FILE w).2 = stdout w.
Proof.
  unfold save_seen, write_text.
  destruct (files w !! SEEN_FILE) as [[text|]|]; simpl; try done;
    rewrite lookup_insert_ne; auto using seen_file_is_not_alert_log.
Qed.

(** C9. When the loop over the sources yields no match, [main] stops
    after saving the seen store: it prints the no-news line and returns
    (or passes on the failure of the save). The alert log is what it was
    before the run, and the clock was read once, by the banner: the alert
    log writer and the notifier, which both read the clock, did not run. *)
Theorem main_no_matches (sources : list source) (keywords : list pystr)
  (w : world) (seen0 seen1 : gmap pystr (list pystr)) (w1 : world) :
  as_seen (load_seen SEEN_FILE (main_banner w)) = Some seen0 ->
  for_sources sources keywords seen0 [] (main_banner w) = (Val [], seen1, w1) ->
  let out := main_with sources keywords w in
  files out.2 !! ALERT_LOG_FILE = files w !! ALERT_LOG_FILE /\
  ticks out.2 = S (ticks w) /\
  match save_seen seen1 SEEN_FILE w1 with
  | (Val _, w2) =>
      out = (Val tt, print w2 (lit "Žiadne nové články s kľúčovými slovami.")) /\
      stdout out.2 = stdout w1 ++ [lit "Žiadne nové články s kľúčovými slovami."]
  | (Raise e, w2) => out = (Raise e, w2) /\ stdout out.2 = stdout w1
  end.
Proof.
  intros Hload Hloop out.
  pose proof (for_sources_world sources keywords seen0 [] (main_banner w))
    as [Hfiles Hticks].
  rewrite Hloop in Hfiles, Hticks. simpl in Hfiles, Hticks.
  pose proof (save_seen_world seen1 w1) as (Hsf & Hst & Hso).
  unfold out, main_with. rewrite Hload, Hloop.
  destruct (save_seen seen1 SEEN_FILE w1) as [[[]|e] w2]; simpl in *.
  - rewrite Hsf, Hfiles, Hst, Hticks, Hso. done.
  - rewrite Hsf, Hfiles, Hst, Hticks, Hso. done.
Qed.

(** With a match, [main] goes on to the writer and the notifier, which
    read the clock: the run reads it four times. *)
Lemma main_report_some_matches (m : match_t) (rest : list match_t) (w : world) :
  files w !! ALERT_LOG_FILE <> Some Dir ->
  (main_report (m :: rest) w).1 = Val tt /\
  ticks (main_report (m :: rest) w).2 = S (S (S (ticks w))) /\
  exists text, files (main_report (m :: rest) w).2 !! ALERT_LOG_FILE = Some (File text).
Proof.
  intros Hdir.
  unfold main_report, append_alert_log, now, path_exists, append_text, write_text,
    format_email_body, send_email, now.
  cbn [files stdout ticks].
  destruct (files w !! ALERT_LOG_FILE) as [[old|]|] eqn:Hf; try done;
    cbn [fst snd files stdout ticks print]; rewrite lookup_insert_eq; eauto.
Qed.

(** ** Further properties of the seen store and the pipeline *)

(** X1. [ensure_source_key] is idempotent, keeps a sequence that is
    already there, gives a missing name the empty sequence, touches no
    other name, and the order of two calls does not matter. *)
Theorem ensure_source_key_idempotent (seen : gmap pystr (list pystr)) (name : pystr) :
  ensure_source_key (ensure_source_key seen name) name = ensure_source_key seen name /\
  (forall ids, seen !! name = Some ids -> ensure_source_key seen name = seen) /\
  (seen !! name = None -> ensure_source_key seen name !! name = Some []) /\
  (forall other, other <> name ->
     ensure_source_key seen name !! other = seen !! other) /\
  (forall other,
     ensure_source_key (ensure_source_key seen name) other
     = ensure_source_key (ensure_source_key seen other) name).
Proof.
  split; [| split; [| split; [| split]]].
  - apply ensure_source_key_present. rewrite ensure_source_key_lookup. eauto.
  - intros ids Hids. apply ensure_source_key_present. eauto.
  - intros Hnone. by rewrite ensure_source_key_lookup, Hnone.
  - intros other Hne. unfold ensure_source_key.
    destruct (seen !! name); [done |]. by rewrite lookup_insert_ne.
  - intros other. destruct (decide (name = other)) as [<- | Hne]; [done |].
    unfold ensure_source_key.
    destruct (seen !! name) as [ids|] eqn:Hn;
      destruct (seen !! other) as [ids'|] eqn:Ho;
      rewrite ?lookup_insert_ne, ?Hn, ?Ho by congruence; try done.
    by apply insert_insert_ne.
Qed.

Lemma spec_identifier_uid (entry : gmap pystr pystr) (uid : pystr) :
  spec_identifier entry = Some uid <-> entry_uid entry = Some uid /\ uid <> [].
Proof.
  rewrite <- entry_uid_spec.
  destruct (entry_uid entry) as [[|c u]|]; split;
    try done; try (intros [[= <-] Hne]; done); try (by intros [? ?]).
  by intros [= <-].
Qed.

Lemma for_entries_no_key_store (name : pystr) (keywords : list pystr)
  (feed_entries : list (gmap pystr pystr))
  (seen : gmap pystr (list pystr)) (matches : list match_t) :
  seen !! name = None ->
  (for_entries name keywords feed_entries seen matches).2 = seen.
Proof.
  intros Hname. revert matches.
  induction feed_entries as [|entry rest IH]; intros matches; simpl; [done |].
  destruct (entry_uid entry) as [[|c u]|]; try apply IH. by rewrite Hname.
Qed.

(** The store [fetch_source] leaves, in every case. *)
Lemma fetch_source_store (src : source) (global_keywords : list pystr)
  (seen : gmap pystr (list pystr)) (w : world) :
  (fetch_source src global_keywords seen w).1.2
  = match seen !! src_name src with
    | Some ids =>
        <[src_name src :=
            (spec_pipeline (src_name src)
               (global_keywords ++ default [] (src_extra_keywords src))
               (default [] (entries (feedparser_parse (src_rss_url src)))) ids).1]> seen
    | None => seen
    end.
Proof.
  destruct (seen !! src_name src) as [ids|] eqn:Hname.
  - by rewrite (fetch_source_refines src global_keywords seen w ids Hname).
  - unfold fetch_source.
    destruct (entries (feedparser_parse (src_rss_url src))) as [[|entry rest]|];
      lazy beta iota zeta; try done.
    match goal with
    | |- context [for_entries ?n ?k ?es ?s ?m] =>
        pose proof (for_entries_no_key_store n k es s m Hname) as Hst;
        destruct (for_entries n k es s m) as [[ms|e] seen']
    end; done.
Qed.

(** What the pipeline appends: identifiers that were not in the sequence,
    each once, each the identifier of an entry of the feed, and every such
    identifier; no more matches than appended identifiers, no more
    appended identifiers than entries. *)
Lemma spec_pipeline_added (name : pystr) (keywords : list pystr)
  (feed_entries : list (gmap pystr pystr)) (ids : list pystr) :
  exists added,
    (spec_pipeline name keywords feed_entries ids).1 = ids ++ added /\
    NoDup added /\
    (forall uid, uid ∈ added <->
       (uid ∉ ids) /\
       exists entry, entry ∈ feed_entries /\ spec_identifier entry = Some uid) /\
    (length (spec_pipeline name keywords feed_entries ids).2 <= length added)%nat /\
    (length added <= length feed_entries)%nat.
Proof.
  revert ids. induction feed_entries as [|entry rest IH]; intros ids; simpl.
  - exists []. rewrite app_nil_r. split; [done |]. split; [constructor |].
    split; [| split; simpl; lia].
    intros uid. split; [by intros ?%elem_of_nil |].
    intros (_ & e & He & _). by apply elem_of_nil in He.
  - assert (Hskip : (forall uid, spec_identifier entry = Some uid -> uid ∈ ids) ->
      exists added,
        (spec_pipeline name keywords rest ids).1 = ids ++ added /\
        NoDup added /\
        (forall uid, uid ∈ added <->
           (uid ∉ ids) /\
           exists e, e ∈ entry :: rest /\ spec_identifier e = Some uid) /\
        (length (spec_pipeline name keywords rest ids).2 <= length added)%nat /\
        (length added <= S (length rest))%nat).
    { intros Hhere. destruct (IH ids) as (added & Heq & Hnd & Hin & Hl1 & Hl2).
      exists added. split; [done |]. split; [done |]. split; [| split; lia].
      intros uid. rewrite Hin. split.
      - intros (Hnot & e & He & Hid). split; [done |]. exists e. split; [by right | done].
      - intros (Hnot & e & He & Hid). split; [done |].
        apply elem_of_cons in He as [-> | He]; [| by exists e].
        destruct Hnot. by apply Hhere. }
    destruct (spec_identifier entry) as [uid0|] eqn:Hid0; [| by apply Hskip].
    case_bool_decide as Hseen; [apply Hskip; by intros ? [= <-] |].
    destruct (IH (ids ++ [uid0])) as (added & Heq & Hnd & Hin & Hl1 & Hl2).
    destruct (spec_pipeline name keywords rest (ids ++ [uid0]))
      as [ids' emitted] eqn:Hrest. simpl in Heq, Hl1.
    assert (Hgoal :
      ids' = ids ++ uid0 :: added /\
      NoDup (uid0 :: added) /\
      (forall uid, uid ∈ uid0 :: added <->
         (uid ∉ ids) /\
         exists e, e ∈ entry :: rest /\ spec_identifier e = Some uid) /\
      (S (length emitted) <= length (uid0 :: added))%nat /\
      (length (uid0 :: added) <= S (length rest))%nat).
    { split; [by rewrite Heq, <- app_assoc |]. split.
      { constructor; [| done]. intros Hin0. apply Hin in Hin0 as [Hnot _].
        apply Hnot, elem_of_app. right. by apply list_elem_of_singleton. }
      split; [| simpl; lia].
      intros uid. rewrite elem_of_cons, Hin. split.
      - intros [-> | (Hnot & e & He & Hid)].
        + split; [done |]. exists entry. split; [by left | done].
        + split; [intros Hu; apply Hnot, elem_of_app; by left |].
          exists e. split; [by right | done].
      - intros (Hnot & e & He & Hid).
        destruct (decide (uid = uid0)) as [-> | Hne]; [by left |]. right.
        split.
        + intros [Hu | Hu%list_elem_of_singleton]%elem_of_app; done.
        + apply elem_of_cons in He as [-> | He]; [congruence | by exists e]. }
    destruct Hgoal as (Hg1 & Hg2 & Hg3 & Hg4 & Hg5).
    exists (uid0 :: added).
    destruct (article_matches_keywords entry keywords); simpl;
      (split; [exact Hg1 |]; split; [exact Hg2 |]; split; [exact Hg3 |];
       split; simpl in *; lia).
Qed.

(** X2. With the key of the source in the store, [fetch_source] returns,
    and what it appends to the sequence of the source are exactly the
    identifiers of the feed that were not in it, each once; it emits no
    more matches than it appends identifiers, and appends no more
    identifiers than the feed has entries. *)
Theorem fetch_source_appends (src : source) (global_keywords : list pystr)
  (seen : gmap pystr (list pystr)) (w : world) (ids : list pystr) :
  seen !! src_name src = Some ids ->
  let feed_entries := default [] (entries (feedparser_parse (src_rss_url src))) in
  let out := fetch_source src global_keywords seen w in
  exists added matches,
    out.1 = (Val matches, <[src_name src := ids ++ added]> seen) /\
    NoDup added /\
    (forall uid, uid ∈ added <->
       (uid ∉ ids) /\
       exists entry, entry ∈ feed_entries /\
                     entry_uid entry = Some uid /\ uid <> []) /\
    (length matches <= length added)%nat /\
    (length added <= length feed_entries)%nat.
Proof.
  intros Hname feed_entries out.
  destruct (spec_pipeline_added (src_name src)
              (global_keywords ++ default [] (src_extra_keywords src))
              feed_entries ids) as (added & Heq & Hnd & Hin & Hl1 & Hl2).
  exists added. eexists. split.
  { unfold out. rewrite (fetch_source_refines src global_keywords seen w ids Hname).
    fold feed_entries. by rewrite Heq. }
  split; [done |]. split; [| by split].
  intros uid. rewrite Hin. split.
  - intros (Hnot & e & He & Hid). split; [done |]. exists e. split; [done |].
    by apply spec_identifier_uid.
  - intros (Hnot & e & He & Hid). split; [done |]. exists e. split; [done |].
    by apply spec_identifier_uid.
Qed.

Lemma fetch_source_nodup (src : source) (global_keywords : list pystr)
  (seen : gmap pystr (list pystr)) (w : world) :
  seen_nodup seen -> seen_nodup (fetch_source src global_keywords seen w).1.2.
Proof.
  intros Hnd. rewrite fetch_source_store.
  destruct (seen !! src_name src) as [ids|] eqn:Hname; [| done].
  intros other ids'. destruct (decide (src_name src = other)) as [<- | Hne].
  - rewrite lookup_insert_eq. intros [= <-].
    destruct (spec_pipeline_added (src_name src)
                (global_keywords ++ default [] (src_extra_keywords src))
                (default [] (entries (feedparser_parse (src_rss_url src)))) ids)
      as (added & -> & Hadd & Hin & _).
    apply NoDup_app. split; [by apply (Hnd (src_name src)) |]. split; [| done].
    intros uid Hu Ha. by apply Hin in Ha as [Hnot _].
  - rewrite lookup_insert_ne by done. apply Hnd.
Qed.

Lemma ensure_source_key_nodup (seen : gmap pystr (list pystr)) (name : pystr) :
  seen_nodup seen -> seen_nodup (ensure_source_key seen name).
Proof.
  intros Hnd other ids. unfold ensure_source_key.
  destruct (seen !! name) eqn:Hname; [apply Hnd |].
  destruct (decide (name = other)) as [<- | Hne].
  - rewrite lookup_insert_eq. intros [= <-]. constructor.
  - rewrite lookup_insert_ne by done. apply Hnd.
Qed.

(** X3. A store in which no sequence holds an identifier twice stays so
    through [ensure_source_key], through [fetch_source] and through the
    runner's loop. *)
Theorem seen_nodup_preserved (seen : gmap pystr (list pystr)) :
  seen_nodup seen ->
  (forall name, seen_nodup (ensure_source_key seen name)) /\
  (forall src keywords w, seen_nodup (fetch_source src keywords seen w).1.2) /\
  (forall sources keywords all_matches w,
     seen_nodup (for_sources sources keywords seen all_matches w).1.2).
Proof.
  intros Hnd.
  split; [intros; by apply ensure_source_key_nodup |].
  split; [intros; by apply fetch_source_nodup |].
  intros sources keywords. revert seen Hnd.
  induction sources as [|src rest IH]; intros seen Hnd all_matches w; simpl; [done |].
  pose proof (fetch_source_nodup src keywords _ w
                (ensure_source_key_nodup seen (src_name src) Hnd)) as Hfetch.
  destruct (fetch_source src keywords (ensure_source_key seen (src_name src)) w)
    as [[[ms|e] seen'] w']; simpl in *; [by apply IH | done].
Qed.

(** X4. [fetch_source] touches the sequence of no other source, whether it
    returns or raises. *)
Theorem fetch_source_other_sources (src : source) (global_keywords : list pystr)
  (seen : gmap pystr (list pystr)) (w : world) (other : pystr) :
  other <> src_name src ->
  (fetch_source src global_keywords seen w).1.2 !! other = seen !! other.
Proof.
  intros Hne. rewrite fetch_source_store.
  destruct (seen !! src_name src); [| done]. by rewrite lookup_insert_ne.
Qed.

Lemma for_entries_no_identifier (name : pystr) (keywords : list pystr)
  (feed_entries : list (gmap pystr pystr))
  (seen : gmap pystr (list pystr)) (matches : list match_t) :
  (forall entry, entry ∈ feed_entries -> spec_identifier entry = None) ->
  for_entries name keywords feed_entries seen matches = (Val matches, seen).
Proof.
  revert matches. induction feed_entries as [|entry rest IH];
    intros matches Hnone; simpl; [done |].
  pose proof (entry_uid_spec entry) as Huid.
  rewrite (Hnone entry) in Huid by left.
  destruct (entry_uid entry) as [[|c u]|]; try done;
    apply IH; intros e He; apply Hnone; by right.
Qed.

(** X5. A feed with no entries, or whose entries all lack an identifier,
    gives no match and leaves the store as it is, also when the name of
    the source is not a key of the store: no [KeyError] then. *)
Theorem fetch_source_nothing_to_record (src : source) (global_keywords : list pystr)
  (seen : gmap pystr (list pystr)) (w : world) :
  (forall entry uid,
     entry ∈ default [] (entries (feedparser_parse (src_rss_url src))) ->
     entry_uid entry = Some uid -> uid = []) ->
  (fetch_source src global_keywords seen w).1 = (Val [], seen).
Proof.
  intros Hnone. unfold fetch_source.
  destruct (entries (feedparser_parse (src_rss_url src))) as [[|entry rest]|];
    lazy beta iota zeta; try done.
  rewrite for_entries_no_identifier; [done |].
  intros e He. destruct (spec_identifier e) as [uid|] eqn:Hid; [| done].
  apply spec_identifier_uid in Hid as [Huid Hne]. destruct Hne.
  by apply (Hnone e).
Qed.

Lemma spec_pipeline_sound (name : pystr) (keywords : list pystr)
  (feed_entries : list (gmap pystr pystr)) (ids : list pystr) (m : match_t) :
  m ∈ (spec_pipeline name keywords feed_entries ids).2 ->
  exists entry uid,
    entry ∈ feed_entries /\ m = make_match name entry /\
    article_matches_keywords entry keywords = true /\
    spec_identifier entry = Some uid /\ uid ∉ ids.
Proof.
  revert ids. induction feed_entries as [|entry rest IH]; intros ids; simpl.
  - by intros ?%elem_of_nil.
  - assert (Hrest : forall ids', (forall uid, uid ∈ ids -> uid ∈ ids') ->
      m ∈ (spec_pipeline name keywords rest ids').2 ->
      exists e uid, e ∈ entry :: rest /\ m = make_match name e /\
        article_matches_keywords e keywords = true /\
        spec_identifier e = Some uid /\ uid ∉ ids).
    { intros ids' Hsub Hm. destruct (IH ids' Hm) as (e & uid & He & -> & Hk & Hid & Hnot).
      exists e, uid. split; [by right |]. repeat split; try done.
      intros Hu. by apply Hnot, Hsub. }
    destruct (spec_identifier entry) as [uid0|] eqn:Hid0; [| by apply Hrest].
    case_bool_decide as Hseen; [by apply Hrest |].
    specialize (Hrest (ids ++ [uid0])).
    destruct (spec_pipeline name keywords rest (ids ++ [uid0]))
      as [ids' emitted] eqn:Hp. simpl in Hrest.
    assert (Hsub : forall uid, uid ∈ ids -> uid ∈ ids ++ [uid0])
      by (intros uid Hu; apply elem_of_app; by left).
    destruct (article_matches_keywords entry keywords) eqn:Hk; simpl.
    + intros [-> | Hm]%elem_of_cons; [| by apply Hrest].
      exists entry, uid0. split; [by left | done].
    + by apply Hrest.
Qed.

(** X6. Every match [fetch_source] returns is the match of an entry of the
    feed that passes the keyword test and whose identifier was not in the
    seen sequence of the source; it carries the name of the source. *)
Theorem fetch_source_matches_sound (src : source) (global_keywords : list pystr)
  (seen : gmap pystr (list pystr)) (w : world) (ids : list pystr)
  (matches : list match_t) (m : match_t) :
  seen !! src_name src = Some ids ->
  (fetch_source src global_keywords seen w).1.1 = Val matches ->
  m ∈ matches ->
  m_source m = src_name src /\
  exists entry uid,
    entry ∈ default [] (entries (feedparser_parse (src_rss_url src))) /\
    m = make_match (src_name src) entry /\
    article_matches_keywords entry
      (global_keywords ++ default [] (src_extra_keywords src)) = true /\
    entry_uid entry = Some uid /\ uid <> [] /\ uid ∉ ids.
Proof.
  intros Hname Hres Hm.
  rewrite (fetch_source_refines src global_keywords seen w ids Hname) in Hres.
  simpl in Hres. injection Hres as <-.
  apply spec_pipeline_sound in Hm as (entry & uid & He & -> & Hk & Hid & Hnot).
  split; [done |]. exists entry, uid.
  apply spec_identifier_uid in Hid as [Huid Hne]. done.
Qed.

Lemma spec_pipeline_ids_keywords (name : pystr) (keywords keywords' : list pystr)
  (feed_entries : list (gmap pystr pystr)) (ids : list pystr) :
  (spec_pipeline name keywords feed_entries ids).1
  = (spec_pipeline name keywords' feed_entries ids).1.
Proof.
  revert ids. induction feed_entries as [|entry rest IH]; intros ids; simpl; [done |].
  destruct (spec_identifier entry) as [uid|]; [| apply IH].
  case_bool_decide; [apply IH |].
  specialize (IH (ids ++ [uid])).
  destruct (spec_pipeline name keywords rest (ids ++ [uid])) as [i1 e1].
  destruct (spec_pipeline name keywords' rest (ids ++ [uid])) as [i2 e2].
  simpl in IH. subst i2.
  by destruct (article_matches_keywords entry keywords),
              (article_matches_keywords entry keywords').
Qed.

(** X7. The store [fetch_source] leaves does not depend on the keywords:
    an entry is recorded as seen whatever the keyword list is. *)
Theorem fetch_source_store_any_keywords (src : source)
  (keywords keywords' : list pystr) (seen : gmap pystr (list pystr)) (w w' : world) :
  (fetch_source src keywords seen w).1.2 = (fetch_source src keywords' seen w').1.2.
Proof.
  rewrite !fetch_source_store. destruct (seen !! src_name src) as [ids|]; [| done].
  f_equal. apply spec_pipeline_ids_keywords.
Qed.

(** ** Further properties of the matcher *)

Lemma str_contains_empty (s : pystr) : str_contains [] s = true.
Proof. by destruct s. Qed.

(** X8. An empty keyword matches every entry: [normalize_text] gives the
    empty string, which is a substring of any haystack. *)
Theorem article_matches_keywords_empty_keyword
  (entry : gmap pystr pystr) (keywords : list pystr) :
  [] ∈ keywords -> article_matches_keywords entry keywords = true.
Proof.
  intros Hin. unfold article_matches_keywords.
  apply any_keyword_in_spec. exists []. split; [done |].
  apply str_contains_empty.
Qed.

Lemma any_keyword_in_app (haystack : pystr) (ks1 ks2 : list pystr) :
  any_keyword_in haystack (ks1 ++ ks2)
  = any_keyword_in haystack ks1 || any_keyword_in haystack ks2.
Proof.
  induction ks1 as [|k ks1 IH]; simpl; [done |].
  by destruct (str_contains (normalize_text k) haystack).
Qed.

(** X9. An entry matches the global keywords together with the extra ones
    exactly when it matches the global ones or the extra ones; with no
    keyword at all nothing matches. *)
Theorem article_matches_keywords_app
  (entry : gmap pystr pystr) (global_keywords extra_keywords : list pystr) :
  article_matches_keywords entry (global_keywords ++ extra_keywords)
  = article_matches_keywords entry global_keywords
    || article_matches_keywords entry extra_keywords /\
  article_matches_keywords entry [] = false.
Proof. split; [apply any_keyword_in_app | done]. Qed.

(** X10. Keywords that differ only in case are the same keywords: two
    lists whose keywords have, one by one, the same lower-case form give
    the same result on every entry. *)
Theorem article_matches_keywords_keyword_case
  (entry : gmap pystr pystr) (keywords keywords' : list pystr) :
  lower [] = [] ->
  Forall2 (fun kw kw' => lower kw = lower kw') keywords keywords' ->
  article_matches_keywords entry keywords
  = article_matches_keywords entry keywords'.
Proof.
  intros Hnil Hcase. unfold article_matches_keywords.
  set (haystack := normalize_text _). clearbody haystack.
  induction Hcase as [|kw kw' ks ks' Hkw _ IH]; simpl; [done |].
  by rewrite !normalize_text_lower, Hkw, IH.
Qed.

(** ** Saving and loading the seen store *)




(** ** Further properties of the alert log writer *)

Lemma append_alert_log_eq (matches : list match_t) (w : world) :
  append_alert_log matches w
  = let run_time := strftime_dmY_HMS (clock (ticks w)) in
    let text := concat (List.map (alert_line run_time) matches) in
    let note := lit "Zapísaných " ++ str_of_nat (length matches)
                ++ lit " článkov do " ++ ALERT_LOG_FILE in
    match files w !! ALERT_LOG_FILE with
    | Some Dir =>
        (Raise (OSError ALERT_LOG_FILE),
         {| files := files w; stdout := stdout w; ticks := S (ticks w) |})
    | Some (File old) =>
        (Val tt,
         {| files := <[ALERT_LOG_FILE := File (old ++ text)]> (files w);
            stdout := stdout w ++ [note]; ticks := S (ticks w) |})
    | None =>
        (Val tt,
         {| files := <[ALERT_LOG_FILE := File (alert_header ++ text)]> (files w);
            stdout := stdout w ++ [note]; ticks := S (ticks w) |})
    end.
Proof.
  unfold append_alert_log, now, path_exists, append_text, write_text.
  cbn [files stdout ticks].
  destruct (files w !! ALERT_LOG_FILE) as [[old|]|] eqn:Hf;
    cbn [files stdout ticks print]; rewrite ?length_map; done.
Qed.


(** X13. Called with no match, the writer leaves an existing alert log,
    and every other file, as it is, and creates a missing one with the
    header alone. *)
Theorem append_alert_log_no_matches (w : world) :
  (forall old, files w !! ALERT_LOG_FILE = Some (File old) ->
     (append_alert_log [] w).1 = Val tt /\ files (append_alert_log [] w).2 = files w) /\
  (files w !! ALERT_LOG_FILE = None ->
     (append_alert_log [] w).1 = Val tt /\
     files (append_alert_log [] w).2 = <[ALERT_LOG_FILE := File alert_header]> (files w)).
Proof.
  rewrite append_alert_log_eq. cbv zeta. split.
  - intros old Hf. rewrite Hf. cbn [fst snd files concat List.map].
    rewrite app_nil_r. split; [done |]. by apply insert_id.
  - intros Hf. rewrite Hf. cbn [fst snd files concat List.map].
    by rewrite app_nil_r.
Qed.

(** ** Further properties of the runner *)

Lemma feeds_recorded_extends (sources : list source)
  (seen seen' : gmap pystr (list pystr)) :
  feeds_recorded sources seen -> seen_extends seen seen' ->
  feeds_recorded sources seen'.
Proof.
  intros Hrec Hext src Hsrc. destruct (Hrec src Hsrc) as (ids & Hids & Hall).
  destruct (Hext _ _ Hids) as [added Hadded].
  exists (ids ++ added). split; [done |].
  intros entry uid He Hid. apply elem_of_app. left. eauto.
Qed.

(** After the loop, every identifier of every feed is in the store. *)
Lemma for_sources_records (sources : list source) (keywords : list pystr)
  (seen : gmap pystr (list pystr)) (all_matches : list match_t) (w : world) :
  feeds_recorded sources (for_sources sources keywords seen all_matches w).1.2.
Proof.
  revert seen all_matches w.
  induction sources as [|src rest IH]; intros seen all_matches w; simpl.
  - intros src Hsrc. by apply elem_of_nil in Hsrc.
  - pose proof (ensure_source_key_lookup seen (src_name src)) as Hname.
    pose proof (fetch_source_refines src keywords _ w _ Hname) as Hfetch.
    cbv zeta in Hfetch.
    destruct (fetch_source src keywords (ensure_source_key seen (src_name src)) w)
      as [[r seen1] w1]. simpl in Hfetch. injection Hfetch as -> ->.
    match goal with
    | |- feeds_recorded _ (for_sources rest keywords ?s ?m w1).1.2 =>
        pose proof (for_sources_extends rest keywords s m w1) as Hext;
        pose proof (IH s m w1) as Hrest;
        set (final := (for_sources rest keywords s m w1).1.2) in *
    end.
    intros src' [-> | Hsrc']%elem_of_cons; [| by apply Hrest].
    match type of Hext with
    | seen_extends (<[_ := ?ids1]> _) _ =>
        destruct (Hext (src_name src) ids1) as [added Hadded];
          [apply lookup_insert_eq |]
    end.
    eexists. split; [exact Hadded |].
    intros entry uid He Hid. apply elem_of_app. left.
    by apply (spec_pipeline_records (src_name src)
                (keywords ++ default [] (src_extra_keywords src))
                (default [] (entries (feedparser_parse (src_rss_url src))))
                (default [] (seen !! src_name src))) with entry.
Qed.

(** On a store that holds every identifier of every feed, the loop emits
    nothing and leaves the store as it is. *)
Lemma for_sources_all_recorded (sources : list source) (keywords : list pystr)
  (seen : gmap pystr (list pystr)) (all_matches : list match_t) (w : world) :
  feeds_recorded sources seen ->
  (for_sources sources keywords seen all_matches w).1 = (Val all_matches, seen).
Proof.
  revert all_matches w.
  induction sources as [|src rest IH]; intros all_matches w Hrec; simpl; [done |].
  destruct (Hrec src) as (ids & Hids & Hall); [by left |].
  rewrite ensure_source_key_present by eauto.
  pose proof (fetch_source_refines src keywords seen w ids Hids) as Hfetch.
  cbv zeta in Hfetch. rewrite spec_pipeline_all_seen in Hfetch by done.
  simpl in Hfetch. rewrite insert_id in Hfetch by done.
  destruct (fetch_source src keywords seen w) as [[r seen1] w1].
  simpl in Hfetch. injection Hfetch as -> ->. rewrite app_nil_r.
  apply IH. intros src' Hsrc'. apply Hrec. by right.
Qed.

(** X14. The runner's loop over all the sources returns from any store,
    and a second pass over the same sources and feeds, on the store the
    first pass left, adds no match and changes nothing in the store, also
    when the keywords have changed in between and when two sources share
    a name. *)
Theorem for_sources_twice (sources : list source) (keywords keywords' : list pystr)
  (seen : gmap pystr (list pystr)) (all_matches all_matches' : list match_t)
  (w w' : world) :
  let first := for_sources sources keywords seen all_matches w in
  (exists matches, first.1.1 = Val matches) /\
  (for_sources sources keywords' first.1.2 all_matches' w').1
  = (Val all_matches', first.1.2).
Proof.
  intros first. split; [apply for_sources_returns |].
  apply for_sources_all_recorded, for_sources_records.
Qed.

Lemma main_banner_world (w : world) :
  files (main_banner w) = files w /\ ticks (main_banner w) = S (ticks w).
Proof. done. Qed.

Lemma save_seen_eq (data : gmap pystr (list pystr)) (path : pystr) (w : world) :
  save_seen data path w
  = match files w !! path with
    | Some Dir => (Raise (OSError path), w)
    | _ => (Val tt,
            {| files := <[path := File (json_dump (seen_to_json data))]> (files w);
               stdout := stdout w; ticks := ticks w |})
    end.
Proof. done. Qed.


(** X16. When the seen file is a directory, the run starts from the empty
    store, goes through all the sources, and raises at [save_seen]:
    nothing is written, neither the seen file nor the alert log, whatever
    the loop found. *)
Theorem main_seen_file_unwritable (sources : list source) (keywords : list pystr)
  (w : world) :
  files w !! SEEN_FILE = Some Dir ->
  let out := main_with sources keywords w in
  as_seen (load_seen SEEN_FILE (main_banner w)) = Some ∅ /\
  out.1 = Raise (OSError SEEN_FILE) /\
  files out.2 = files w.
Proof.
  intros Hseen out.
  assert (Hload : as_seen (load_seen SEEN_FILE (main_banner w)) = Some ∅).
  { unfold load_seen, load_seen_try, path_exists, read_text.
    rewrite (proj1 (main_banner_world w)), Hseen. done. }
  split; [done |].
  unfold out, main_with. rewrite Hload.
  pose proof (for_sources_world sources keywords ∅ [] (main_banner w)) as [Hfiles _].
  destruct (for_sources_returns sources keywords ∅ [] (main_banner w)) as [ms Hms].
  destruct (for_sources sources keywords ∅ [] (main_banner w)) as [[r seen1] w1].
  simpl in Hms, Hfiles. subst r.
  rewrite save_seen_eq, Hfiles, Hseen. done.
Qed.



Lemma fetch_source_stdout (src : source) (global_keywords : list pystr)
  (seen : gmap pystr (list pystr)) (w : world) :
  exists printed, stdout (fetch_source src global_keywords seen w).2 = stdout w ++ printed.
Proof.
  unfold fetch_source.
  destruct (bozo (feedparser_parse (src_rss_url src)));
    destruct (entries (feedparser_parse (src_rss_url src))) as [[|entry rest]|];
    lazy beta iota zeta;
    try match goal with
    | |- context [for_entries ?n ?k ?es ?s ?m] =>
        destruct (for_entries n k es s m) as [[ms|e] seen']
    end; cbn [snd stdout print]; rewrite <- ?app_assoc; eauto.
Qed.

(** X18. [fetch_source] and the runner's loop write no file and do not
    read the clock; all they do to the world is print, after what was
    printed before. *)
Theorem for_sources_only_prints (sources : list source) (keywords : list pystr)
  (seen : gmap pystr (list pystr)) (all_matches : list match_t) (w : world) :
  (forall src,
     files (fetch_source src keywords seen w).2 = files w /\
     ticks (fetch_source src keywords seen w).2 = ticks w /\
     exists printed, stdout (fetch_source src keywords seen w).2 = stdout w ++ printed) /\
  files (for_sources sources keywords seen all_matches w).2 = files w /\
  ticks (for_sources sources keywords seen all_matches w).2 = ticks w /\
  exists printed,
    stdout (for_sources sources keywords seen all_matches w).2 = stdout w ++ printed.
Proof.
  split.
  { intros src. destruct (fetch_source_world src keywords seen w) as [Hf Ht].
    split; [done |]. split; [done |]. apply fetch_source_stdout. }
  destruct (for_sources_world sources keywords seen all_matches w) as [Hf Ht].
  split; [done |]. split; [done |].
  clear Hf Ht. revert seen all_matches w.
  induction sources as [|src rest IH]; intros seen all_matches w; simpl.
  - exists []. by rewrite app_nil_r.
  - destruct (fetch_source_stdout src keywords
                (ensure_source_key seen (src_name src)) w) as [p1 Hp1].
    destruct (fetch_source src keywords (ensure_source_key seen (src_name src)) w)
      as [[[ms|e] seen'] w']; simpl in *.
    + destruct (IH seen' (all_matches ++ ms) w') as [p2 Hp2].
      exists (p1 ++ p2). by rewrite Hp2, Hp1, app_assoc.
    + by exists p1.
Qed.

(** ** The notification text *)

Lemma str_split_join (sep : N) (lines : list pystr) :
  lines <> [] -> Forall (fun l => sep ∉ l) lines ->
  str_split sep (str_join [sep] lines) = lines.
Proof.
  intros Hne Hall. induction Hall as [|l ls Hl Hls IH]; [done |].
  destruct ls as [|l' ls].
  - simpl. by apply str_split_no_sep.
  - change (str_join [sep] (l :: l' :: ls))
      with (l ++ [sep] ++ str_join [sep] (l' :: ls)).
    rewrite str_split_app_sep by done. by rewrite IH.
Qed.

Lemma digit_not_newline (d : N) : NEWLINE <> digit d.
Proof.
  unfold NEWLINE, digit. intros Heq.
  pose proof (N.le_0_l (d mod 10)). pose proof (N.mod_lt d 10). lia.
Qed.

Lemma strftime_no_newline (dt : datetime) : NEWLINE ∉ strftime_dmY_HMS dt.
Proof.
  unfold strftime_dmY_HMS, strftime_dmY_HM, pad2, pad4.
  rewrite !not_elem_of_app, !not_elem_of_cons.
  pose proof digit_not_newline.
  repeat split; try done; try apply not_elem_of_nil;
    by apply (bool_decide_unpack _); vm_compute.
Qed.

Lemma email_lines_no_newline (m : match_t) :
  NEWLINE ∉ m_source m -> NEWLINE ∉ m_title m -> NEWLINE ∉ m_published m ->
  NEWLINE ∉ m_link m -> NEWLINE ∉ m_summary m ->
  Forall (fun l => NEWLINE ∉ l) (email_lines m).
Proof.
  intros Hs Ht Hp Hl Hsum.
  assert (Hlit : forall (prefix s : pystr),
    bool_decide (NEWLINE ∉ prefix) = true -> NEWLINE ∉ s -> NEWLINE ∉ prefix ++ s).
  { intros prefix s Hprefix Hs'. apply not_elem_of_app. split; [| done].
    by apply bool_decide_eq_true in Hprefix. }
  assert (Hrule : NEWLINE ∉ str_repeat (lit "-") 80)
    by (by apply (bool_decide_unpack _); vm_compute).
  unfold email_lines. rewrite !Forall_app. repeat split.
  - repeat constructor; by apply Hlit.
  - destruct (truthy (m_published m)); repeat constructor. by apply Hlit.
  - repeat constructor. by apply Hlit.
  - destruct (truthy (m_summary m)); repeat constructor; try done.
    + apply not_elem_of_nil.
    + by apply (bool_decide_unpack _); vm_compute.
  - by repeat constructor.
Qed.

(** X19. The notification body is one line per item: for matches whose
    fields hold no line break, splitting the body at line breaks gives the
    title line, the line with the time of the call, an empty line, and
    then the lines of each match in turn. The call reads the clock once
    and changes nothing else. *)
Theorem format_email_body_lines (matches : list match_t) (w : world) :
  (forall m, m ∈ matches ->
     (NEWLINE ∉ m_source m) /\ (NEWLINE ∉ m_title m) /\ (NEWLINE ∉ m_published m) /\
     (NEWLINE ∉ m_link m) /\ (NEWLINE ∉ m_summary m)) ->
  str_split NEWLINE (format_email_body matches w).1
  = [lit "Monitoring denníkov – nové články s vybranými kľúčovými slovami";
     lit "Čas spustenia: " ++ strftime_dmY_HMS (clock (ticks w));
     []]
    ++ concat (List.map email_lines matches) /\
  files (format_email_body matches w).2 = files w /\
  stdout (format_email_body matches w).2 = stdout w /\
  ticks (format_email_body matches w).2 = S (ticks w).
Proof.
  intros Hfields. split; [| done].
  unfold format_email_body, now. cbn [fst snd ticks].
  apply str_split_join; [done |].
  apply Forall_app. split.
  - repeat constructor.
    + by apply (bool_decide_unpack _); vm_compute.
    + apply not_elem_of_app. split; [| apply strftime_no_newline].
      by apply (bool_decide_unpack _); vm_compute.
    + apply not_elem_of_nil.
  - induction matches as [|m ms IH]; cbn [concat List.map]; [constructor |].
    apply Forall_app. split.
    + destruct (Hfields m) as (? & ? & ? & ? & ?); [by left |].
      by apply email_lines_no_newline.
    + apply IH. intros m' Hm'. apply Hfields. by right.
Qed.

End Program.

(** ** The program on sample data *)

Example lit_ascii : lit "a;b" = [0x61; 0x3B; 0x62].
Proof. reflexivity. Qed.

Example lit_slovak : lit "Č ť" = [0x10C; 0x20; 0x165].
Proof. reflexivity. Qed.

Example str_of_nat_12 : str_of_nat 12 = lit "12".
Proof. reflexivity. Qed.

Example str_strip_sample : str_strip (lit "  a b ") = lit "a b".
Proof. reflexivity. Qed.

Example str_split_sample :
  str_split SEMICOLON (lit "a;;b") = [lit "a"; []; lit "b"].
Proof. reflexivity. Qed.

Example lower_latin_sample :
  lower_latin (lit "BEZPEČNOSŤ na hraniciach") = lit "bezpečnosť na hraniciach".
Proof. reflexivity. Qed.

(** The joined literals of the keyword list make one keyword. *)
Example keywords_joined_literals :
  length KEYWORDS = 13%nat /\ lit "šutaj eštokeštok" ∈ KEYWORDS /\ lit "eštok" ∉ KEYWORDS.
Proof. split; [done |]. split; by apply (bool_decide_unpack _); vm_compute. Qed.

(** The case-insensitivity example of the specification, through C3. *)
Lemma article_matches_keywords_iff_witness :
  lower_latin [] = [] /\
  article_matches_keywords lower_latin entry_bezpecnost [lit "bezpečnosť"] = true.
Proof.
  split; [reflexivity |].
  apply (proj2 (article_matches_keywords_iff lower_latin entry_bezpecnost
                  [lit "bezpečnosť"] eq_refl)).
  exists (lit "bezpečnosť"), [], (lit " na hraniciach ").
  split; [left | vm_compute; reflexivity].
Defined.

Lemma article_matches_keywords_perm_witness :
  Permutation [lit "pasy"; lit "útok"] [lit "útok"; lit "pasy"] /\
  article_matches_keywords lower_latin entry_pasy [lit "pasy"; lit "útok"]
  = article_matches_keywords lower_latin entry_pasy [lit "útok"; lit "pasy"].
Proof.
  split; [apply perm_swap |].
  apply (proj1 (article_matches_keywords_perm lower_latin
                  [lit "pasy"; lit "útok"] [lit "útok"; lit "pasy"]
                  (perm_swap _ _ _))).
Defined.

(** A title and a link with [;] in them: the second character of the
    title is replaced, and the line has five columns. *)
Lemma alert_line_five_columns_witness :
  m_title sample_match ∈ [m_title sample_match; m_link sample_match;
                          m_published sample_match; m_source sample_match] /\
  m_title sample_match !! 1%nat = Some SEMICOLON /\
  str_replace SEMICOLON COMMA (m_title sample_match) !! 1%nat = Some COMMA /\
  length (str_split SEMICOLON
            (alert_line (strftime_dmY_HMS (sample_clock 1)) sample_match)) = 5%nat.
Proof.
  destruct (alert_line_five_columns (sample_clock 1) sample_match)
    as (Hfields & _ & Hlen).
  assert (Hin : m_title sample_match ∈ [m_title sample_match; m_link sample_match;
                                        m_published sample_match; m_source sample_match])
    by left.
  split; [exact Hin |]. split; [reflexivity |].
  split; [| exact Hlen].
  destruct (Hfields _ Hin) as (_ & _ & Hpos).
  exact (Hpos 1%nat SEMICOLON eq_refl).
Defined.


Lemma load_seen_cases_witness :
  (files empty_world !! SEEN_FILE = None /\
   load_seen sample_json_load SEEN_FILE empty_world = empty_mapping) /\
  (files (world_with SEEN_FILE (File (lit "{oops"))) !! SEEN_FILE
   = Some (File (lit "{oops")) /\
   sample_json_load (lit "{oops") = Raise ValueError /\
   load_seen sample_json_load SEEN_FILE (world_with SEEN_FILE (File (lit "{oops")))
   = empty_mapping) /\
  (files (world_with SEEN_FILE (File (lit "[]"))) !! SEEN_FILE = Some (File (lit "[]")) /\
   sample_json_load (lit "[]") = Val (JArr []) /\
   load_seen sample_json_load SEEN_FILE (world_with SEEN_FILE (File (lit "[]")))
   = JArr []).
Proof.
  split; [| split].
  - split; [reflexivity |].
    exact (proj1 (load_seen_cases sample_json_load SEEN_FILE empty_world) eq_refl).
  - split; [reflexivity |]. split; [reflexivity |].
    exact (proj1 (proj2 (load_seen_cases sample_json_load SEEN_FILE
                           (world_with SEEN_FILE (File (lit "{oops")))))
             (lit "{oops") ValueError eq_refl eq_refl).
  - split; [reflexivity |]. split; [reflexivity |].
    exact (proj2 (proj2 (proj2 (load_seen_cases sample_json_load SEEN_FILE
                                  (world_with SEEN_FILE (File (lit "[]"))))))
             (lit "[]") (JArr []) eq_refl eq_refl).
Defined.

Lemma seen_only_grows_witness :
  sample_seen_old !! lit "Test" = Some [lit "https://example.sk/old"] /\
  [lit "https://example.sk/old"] !! 0%nat = Some (lit "https://example.sk/old") /\
  exists ids',
    (fetch_source lower_latin sample_parse sample_source KEYWORDS
       sample_seen_old empty_world).1.2 !! lit "Test" = Some ids' /\
    ids' !! 0%nat = Some (lit "https://example.sk/old").
Proof.
  assert (Hname : sample_seen_old !! lit "Test" = Some [lit "https://example.sk/old"])
    by (vm_compute; reflexivity).
  split; [exact Hname |]. split; [reflexivity |].
  destruct (seen_only_grows lower_latin sample_parse sample_seen_old)
    as (_ & Hfetch & _ & Hpos).
  exact (Hpos _ (lit "Test") [lit "https://example.sk/old"] 0%nat
           (lit "https://example.sk/old")
           (Hfetch sample_source KEYWORDS empty_world) Hname eq_refl).
Defined.

(** The scenario of the specification: of two new entries, one about
    passports and one about the weather (and one entry without an
    identifier), both identifiers are recorded and the first entry is the
    only match. *)
Lemma fetch_source_pipeline_witness :
  sample_seen !! src_name sample_source = Some [] /\
  (fetch_source lower_latin sample_parse sample_source KEYWORDS sample_seen empty_world).1
  = (Val [make_match (lit "Test") entry_pasy],
     <[lit "Test" := [lit "https://example.sk/pasy"; lit "https://example.sk/pocasie"]]>
       sample_seen).
Proof.
  assert (Hname : sample_seen !! src_name sample_source = Some [])
    by (vm_compute; reflexivity).
  split; [exact Hname |].
  rewrite (proj1 (fetch_source_pipeline lower_latin sample_parse sample_source
                    KEYWORDS sample_seen empty_world [] Hname)).
  vm_compute. reflexivity.
Defined.

Lemma fetch_source_key_precondition_witness :
  is_Some (sample_seen !! src_name sample_source) /\
  (exists matches,
     (fetch_source lower_latin sample_parse sample_source KEYWORDS
        sample_seen empty_world).1.1 = Val matches) /\
  (∅ : gmap pystr (list pystr)) !! src_name sample_source = None /\
  (fetch_source lower_latin sample_parse sample_source KEYWORDS ∅ empty_world).1
  = (Raise (KeyError (lit "Test")), ∅).
Proof.
  assert (Hname : is_Some (sample_seen !! src_name sample_source))
    by (exists []; vm_compute; reflexivity).
  split; [exact Hname |]. split.
  - exact (proj1 (fetch_source_key_precondition lower_latin sample_parse
                    sample_source KEYWORDS sample_seen empty_world) Hname).
  - split; [reflexivity |].
    refine (proj2 (proj2 (proj2 (fetch_source_key_precondition lower_latin
              sample_parse sample_source KEYWORDS ∅ empty_world)))
              eq_refl [entry_pasy; entry_anonymous; entry_pocasie] eq_refl _).
    exists entry_pasy, (lit "https://example.sk/pasy").
    split; [left | vm_compute; reflexivity].
Defined.

(** A run in which no entry matches the keyword: the alert log is not
    created and the clock is read once. *)
Lemma main_no_matches_witness :
  as_seen (load_seen sample_json_load SEEN_FILE (main_banner sample_clock empty_world))
  = Some ∅ /\
  (for_sources lower_latin sample_parse [sample_source] [lit "hokej"] ∅ []
     (main_banner sample_clock empty_world)).1.1 = Val [] /\
  files (main_with lower_latin sample_parse sample_json_load sample_json_dump
           sample_clock [sample_source] [lit "hokej"] empty_world).2 !! ALERT_LOG_FILE
  = None /\
  ticks (main_with lower_latin sample_parse sample_json_load sample_json_dump
           sample_clock [sample_source] [lit "hokej"] empty_world).2 = 1%nat.
Proof.
  set (loop := for_sources lower_latin sample_parse [sample_source] [lit "hokej"] ∅ []
                 (main_banner sample_clock empty_world)).
  assert (Hload : as_seen (load_seen sample_json_load SEEN_FILE
                             (main_banner sample_clock empty_world)) = Some ∅)
    by (vm_compute; reflexivity).
  assert (Hloop : loop = (Val [], loop.1.2, loop.2)) by (vm_compute; reflexivity).
  split; [exact Hload |]. split; [vm_compute; reflexivity |].
  destruct (main_no_matches lower_latin sample_parse sample_json_load sample_json_dump
              sample_clock [sample_source] [lit "hokej"] empty_world ∅ loop.1.2 loop.2
              Hload Hloop) as (Hfiles & Hticks & _).
  split; [exact Hfiles | exact Hticks].
Defined.

(** The second run of the scenario returns no match and records nothing
    new. *)
Example fetch_source_twice_sample :
  (fetch_source lower_latin sample_parse sample_source KEYWORDS
     (ensure_source_key ∅ (lit "Test")) empty_world).1.1
  = Val [make_match (lit "Test") entry_pasy] /\
  (fetch_source lower_latin sample_parse sample_source KEYWORDS
     (ensure_source_key
        (fetch_source lower_latin sample_parse sample_source KEYWORDS
           (ensure_source_key ∅ (lit "Test")) empty_world).1.2
        (lit "Test"))
     empty_world).1.1
  = Val [].
Proof. split; vm_compute; reflexivity. Qed.

(** An entry without link, id or title is recorded nowhere and matches
    nothing, though its summary holds a keyword. *)
Example entry_without_identifier :
  article_matches_keywords lower_latin entry_anonymous KEYWORDS = true /\
  (fetch_source lower_latin (fun _ => {| bozo := false; bozo_exception := [];
                                         entries := Some [entry_anonymous] |})
     sample_source KEYWORDS sample_seen empty_world).1
  = (Val [], sample_seen).
Proof. split; vm_compute; reflexivity. Qed.

(** A run with a match writes the header and one record. *)
Example main_with_match_sample :
  (main_with lower_latin sample_parse sample_json_load sample_json_dump sample_clock
     [sample_source] KEYWORDS empty_world).1 = Val tt /\
  files (main_with lower_latin sample_parse sample_json_load sample_json_dump
           sample_clock [sample_source] KEYWORDS empty_world).2 !! ALERT_LOG_FILE
  = Some (File (alert_header
                ++ lit "09.03.2025 07:05:01;Test;;Nové pasy na ministerstve vnútra;https://example.sk/pasy"
                ++ [NEWLINE])).
Proof. split; vm_compute; reflexivity. Qed.

(** ** The further properties on sample data *)

Lemma ensure_source_key_idempotent_witness :
  sample_seen_old !! lit "Test" = Some [lit "https://example.sk/old"] /\
  ensure_source_key sample_seen_old (lit "Test") = sample_seen_old /\
  lit "Other" <> lit "Test" /\
  ensure_source_key sample_seen_old (lit "Test") !! lit "Other"
  = sample_seen_old !! lit "Other".
Proof.
  assert (Hname : sample_seen_old !! lit "Test" = Some [lit "https://example.sk/old"])
    by (vm_compute; reflexivity).
  assert (Hne : lit "Other" <> lit "Test") by (vm_compute; discriminate).
  destruct (ensure_source_key_idempotent sample_seen_old (lit "Test"))
    as (_ & Hkeep & _ & Hother & _).
  split; [exact Hname |]. split; [exact (Hkeep _ Hname) |].
  split; [exact Hne | exact (Hother _ Hne)].
Defined.

Lemma fetch_source_appends_witness :
  sample_seen !! src_name sample_source = Some [] /\
  exists added matches,
    (fetch_source lower_latin sample_parse sample_source KEYWORDS
       sample_seen empty_world).1
    = (Val matches, <[src_name sample_source := [] ++ added]> sample_seen) /\
    NoDup added /\
    (length matches <= length added)%nat /\ (length added <= 3)%nat.
Proof.
  assert (Hname : sample_seen !! src_name sample_source = Some [])
    by (vm_compute; reflexivity).
  split; [exact Hname |].
  destruct (fetch_source_appends lower_latin sample_parse sample_source KEYWORDS
              sample_seen empty_world [] Hname)
    as (added & matches & Hout & Hnd & _ & Hl1 & Hl2).
  exists added, matches. split; [exact Hout |]. split; [exact Hnd |].
  split; [exact Hl1 | exact Hl2].
Defined.

Lemma seen_nodup_preserved_witness :
  seen_nodup sample_seen_old /\
  seen_nodup (fetch_source lower_latin sample_parse sample_source KEYWORDS
                sample_seen_old empty_world).1.2.
Proof.
  assert (Hnd : seen_nodup sample_seen_old).
  { intros name ids Hids. unfold sample_seen_old in Hids.
    apply lookup_singleton_Some in Hids as [_ <-].
    apply NoDup_singleton. }
  split; [exact Hnd |].
  exact (proj1 (proj2 (seen_nodup_preserved lower_latin sample_parse
                         sample_seen_old Hnd))
           sample_source KEYWORDS empty_world).
Defined.

Lemma fetch_source_other_sources_witness :
  lit "Other" <> src_name sample_source /\
  (fetch_source lower_latin sample_parse sample_source KEYWORDS
     (<[lit "Other" := [lit "x"]]> sample_seen) empty_world).1.2 !! lit "Other"
  = Some [lit "x"].
Proof.
  assert (Hne : lit "Other" <> src_name sample_source) by (vm_compute; discriminate).
  split; [exact Hne |].
  rewrite (fetch_source_other_sources lower_latin sample_parse sample_source KEYWORDS
             (<[lit "Other" := [lit "x"]]> sample_seen) empty_world (lit "Other") Hne).
  apply lookup_insert_eq.
Defined.

Lemma fetch_source_nothing_to_record_witness :
  (forall entry uid,
     entry ∈ default [] (entries (anonymous_parse (src_rss_url sample_source))) ->
     entry_uid entry = Some uid -> uid = []) /\
  (fetch_source lower_latin anonymous_parse sample_source KEYWORDS ∅ empty_world).1
  = (Val [], ∅).
Proof.
  assert (Hnone : forall entry uid,
     entry ∈ default [] (entries (anonymous_parse (src_rss_url sample_source))) ->
     entry_uid entry = Some uid -> uid = []).
  { intros entry uid Hin Huid. simpl in Hin.
    apply list_elem_of_singleton in Hin. subst entry.
    vm_compute in Huid. discriminate. }
  split; [exact Hnone |].
  exact (fetch_source_nothing_to_record lower_latin anonymous_parse sample_source
           KEYWORDS ∅ empty_world Hnone).
Defined.

Lemma fetch_source_matches_sound_witness :
  sample_seen !! src_name sample_source = Some [] /\
  (fetch_source lower_latin sample_parse sample_source KEYWORDS
     sample_seen empty_world).1.1 = Val [make_match (lit "Test") entry_pasy] /\
  make_match (lit "Test") entry_pasy ∈ [make_match (lit "Test") entry_pasy] /\
  m_source (make_match (lit "Test") entry_pasy) = src_name sample_source.
Proof.
  assert (Hname : sample_seen !! src_name sample_source = Some [])
    by (vm_compute; reflexivity).
  assert (Hres : (fetch_source lower_latin sample_parse sample_source KEYWORDS
                    sample_seen empty_world).1.1
                 = Val [make_match (lit "Test") entry_pasy])
    by (vm_compute; reflexivity).
  assert (Hin : make_match (lit "Test") entry_pasy ∈ [make_match (lit "Test") entry_pasy])
    by left.
  split; [exact Hname |]. split; [exact Hres |]. split; [exact Hin |].
  exact (proj1 (fetch_source_matches_sound lower_latin sample_parse sample_source
                  KEYWORDS sample_seen empty_world [] _ _ Hname Hres Hin)).
Defined.

Lemma article_matches_keywords_empty_keyword_witness :
  [] ∈ [lit "hokej"; []] /\
  article_matches_keywords lower_latin entry_pocasie [lit "hokej"; []] = true.
Proof.
  assert (Hin : [] ∈ [lit "hokej"; ([] : pystr)]) by (right; left).
  split; [exact Hin |].
  exact (article_matches_keywords_empty_keyword lower_latin entry_pocasie _ Hin).
Defined.

Lemma article_matches_keywords_keyword_case_witness :
  lower_latin [] = [] /\
  Forall2 (fun kw kw' => lower_latin kw = lower_latin kw')
          [lit "ÚTOK"; lit "Pasy"] [lit "útok"; lit "pasy"] /\
  article_matches_keywords lower_latin entry_pasy [lit "ÚTOK"; lit "Pasy"]
  = article_matches_keywords lower_latin entry_pasy [lit "útok"; lit "pasy"].
Proof.
  assert (Hcase : Forall2 (fun kw kw' => lower_latin kw = lower_latin kw')
                    [lit "ÚTOK"; lit "Pasy"] [lit "útok"; lit "pasy"])
    by (repeat constructor).
  split; [reflexivity |]. split; [exact Hcase |].
  exact (article_matches_keywords_keyword_case lower_latin entry_pasy _ _ eq_refl Hcase).
Defined.



Lemma append_alert_log_no_matches_witness :
  files (world_with ALERT_LOG_FILE (File alert_header)) !! ALERT_LOG_FILE
  = Some (File alert_header) /\
  files (append_alert_log sample_clock []
           (world_with ALERT_LOG_FILE (File alert_header))).2
  = files (world_with ALERT_LOG_FILE (File alert_header)) /\
  files empty_world !! ALERT_LOG_FILE = None /\
  files (append_alert_log sample_clock [] empty_world).2
  = <[ALERT_LOG_FILE := File alert_header]> (files empty_world).
Proof.
  assert (Hfile : files (world_with ALERT_LOG_FILE (File alert_header)) !! ALERT_LOG_FILE
                  = Some (File alert_header)) by apply lookup_singleton_eq.
  assert (Hnone : files empty_world !! ALERT_LOG_FILE = None) by apply lookup_empty.
  split; [exact Hfile |]. split.
  - exact (proj2 (proj1 (append_alert_log_no_matches sample_clock
                           (world_with ALERT_LOG_FILE (File alert_header)))
                    alert_header Hfile)).
  - split; [exact Hnone |].
    exact (proj2 (proj2 (append_alert_log_no_matches sample_clock empty_world) Hnone)).
Defined.


Lemma main_seen_file_unwritable_witness :
  files (world_with SEEN_FILE Dir) !! SEEN_FILE = Some Dir /\
  (main_with lower_latin sample_parse sample_json_load sample_json_dump sample_clock
     [sample_source] KEYWORDS (world_with SEEN_FILE Dir)).1
  = Raise (OSError SEEN_FILE) /\
  files (main_with lower_latin sample_parse sample_json_load sample_json_dump
           sample_clock [sample_source] KEYWORDS (world_with SEEN_FILE Dir)).2
  = files (world_with SEEN_FILE Dir).
Proof.
  assert (Hseen : files (world_with SEEN_FILE Dir) !! SEEN_FILE = Some Dir)
    by apply lookup_singleton_eq.
  split; [exact Hseen |].
  exact (proj2 (main_seen_file_unwritable lower_latin sample_parse sample_json_load
                  sample_json_dump sample_clock [sample_source] KEYWORDS
                  (world_with SEEN_FILE Dir) Hseen)).
Defined.



Lemma format_email_body_lines_witness :
  (forall m, m ∈ [sample_match] ->
     (NEWLINE ∉ m_source m) /\ (NEWLINE ∉ m_title m) /\ (NEWLINE ∉ m_published m) /\
     (NEWLINE ∉ m_link m) /\ (NEWLINE ∉ m_summary m)) /\
  length (str_split NEWLINE (format_email_body sample_clock [sample_match] empty_world).1)
  = 8%nat.
Proof.
  assert (Hfields : forall m, m ∈ [sample_match] ->
     (NEWLINE ∉ m_source m) /\ (NEWLINE ∉ m_title m) /\ (NEWLINE ∉ m_published m) /\
     (NEWLINE ∉ m_link m) /\ (NEWLINE ∉ m_summary m)).
  { intros m Hm. apply list_elem_of_singleton in Hm. subst m.
    repeat split; by apply (bool_decide_unpack _); vm_compute. }
  split; [exact Hfields |].
  rewrite (proj1 (format_email_body_lines sample_clock [sample_match] empty_world Hfields)).
  reflexivity.
Defined.
